(** * eslint-plugin-react: AST utilities and the sort-prop-types rule

    A shallow embedding of [lib/util/ast.js] (the return-statement
    locators and the key helpers) and of the [checkSorted] reduction of
    [lib/rules/sort-prop-types.js], with the properties their
    specification states about them.

    Conventions of the embedding.
    - JavaScript strings are [string]; identifiers and property names are
      taken to be ASCII, so that [<] on strings is the lexicographic order
      on character codes ([String.ltb]) and [toLowerCase] acts on [A-Z].
    - Object identity ([===] on nodes) is equality of a numeric identity
      carried by every node.
    - A property access on [undefined] raises a [TypeError]; functions in
      which the source can do so return in [exn]. *)

From Stdlib Require Import List String Ascii Bool Arith Lia.
Import ListNotations.
Open Scope string_scope.
Open Scope list_scope.

Set Warnings "-register-all".

(** ** Exceptions *)

Inductive exn (A : Type) : Type :=
| Ok (a : A)
| TypeError.
Arguments Ok {A} a.
Arguments TypeError {A}.

Definition bind {A B : Type} (m : exn A) (k : A -> exn B) : exn B :=
  match m with
  | Ok a => k a
  | TypeError => TypeError
  end.

Notation "x <- m ;; k" := (bind m (fun x => k))
  (at level 61, m at next level, right associativity).

(** ** Strings *)

Definition quote : ascii := "'"%char.

(** The [/'$/] alternative: a quote that is the last character. *)
Fixpoint dropTrailingQuote (s : string) : string :=
  match s with
  | EmptyString => EmptyString
  | String c EmptyString => if Ascii.eqb c quote then EmptyString else s
  | String c rest => String c (dropTrailingQuote rest)
  end.

(** [string.replace(/^'|'$/g, '')]: the global replacement scans from the
    left; the first alternative can only match at offset 0, the second only
    a quote that ends the string, and a character consumed by one match is
    not matched again. *)
Definition stripQuotes (s : string) : string :=
  match s with
  | EmptyString => EmptyString
  | String c rest =>
      if Ascii.eqb c quote then dropTrailingQuote rest else dropTrailingQuote s
  end.

Definition isUpper (c : ascii) : bool :=
  let n := nat_of_ascii c in ((65 <=? n)%nat && (n <=? 90)%nat)%bool.

Definition lowerChar (c : ascii) : ascii :=
  if isUpper c then ascii_of_nat (nat_of_ascii c + 32) else c.

(** [String(item).toLowerCase()] *)
Fixpoint toLowerCase (s : string) : string :=
  match s with
  | EmptyString => EmptyString
  | String c rest => String (lowerChar c) (toLowerCase rest)
  end.

(** [a < b] on two strings. *)
Definition js_lt (a b : string) : bool := String.ltb a b.

(** ** [getKeyValue] (lib/util/ast.js) *)

Module KeyValue.

(** The [key] or [argument] of a node: an [Identifier] has a [name],
    anything else is read through [value]. *)
Inductive keyExpr : Type :=
| Identifier (name : string)
| Literal (value : option string).

(** The node shapes [getKeyValue] tells apart. [tokens] is what
    [context.getFirstTokens(node, 2)] yields for the node, as token
    values. *)
Inductive keyed : Type :=
| ObjectTypeProperty (tokens : list string)
| GenericTypeAnnotation (idName : string)
| ObjectTypeAnnotation
| Keyed (key : option keyExpr) (argument : option keyExpr).

Definition token (tokens : list string) (i : nat) : exn string :=
  match nth_error tokens i with
  | Some v => Ok v
  | None => TypeError
  end.

(** [None] is the [undefined] of a bare [return;]. *)
Definition getKeyValue (node : keyed) : exn (option string) :=
  match node with
  | ObjectTypeProperty tokens =>
      t0 <- token tokens 0 ;;
      if (t0 =? "+") || (t0 =? "-")
      then t1 <- token tokens 1 ;; Ok (Some t1)
      else Ok (Some (stripQuotes t0))
  | GenericTypeAnnotation idName => Ok (Some idName)
  | ObjectTypeAnnotation => Ok None
  | Keyed key argument =>
      match (match key with Some k => Some k | None => argument end) with
      | None => Ok None
      | Some (Identifier name) => Ok (Some name)
      | Some (Literal value) => Ok value
      end
  end.

End KeyValue.

(** ** The [checkSorted] reduction (lib/rules/sort-prop-types.js) *)

Module SortPropTypes.

(** A [key] or [argument] node as [getKey] reads it: its [value], where
    it is a literal (a string literal: keys that are numbers are left
    out), and its source text. *)
Record keyNode : Type := {
  kvalue : option string;
  ktext : string
}.

(** A member of a declaration list. [dvalueProperty] is
    [node.value.property.name] where [node.value] has a [property]. *)
Record declaration : Type := {
  did : nat;
  dtype : string;
  dkey : option keyNode;
  dargument : option keyNode;
  dvalueProperty : option string
}.

Record report : Type := {
  rnode : declaration;
  message : string
}.

Record configuration : Type := {
  requiredFirst : bool;
  callbacksLast : bool;
  ignoreCase : bool;
  noSortAlphabetically : bool;
  sortShapeProp : bool
}.

Definition requiredMessage : string :=
  "Required prop types must be listed before all other prop types".
Definition callbackMessage : string :=
  "Callback prop types must be listed after all other prop types".
Definition alphabeticalMessage : string :=
  "Prop types declarations should be sorted alphabetically".

Section Rule.

(** What the rule's closure captures: the options and the text of the
    file ([getText] of no node is the whole text). *)
Variable options : configuration.
Variable sourceText : string.

Definition getText (n : option keyNode) : string :=
  match n with
  | Some k => ktext k
  | None => sourceText
  end.

(** A string is truthy unless it is empty. *)
Definition truthyString (v : string) : bool := negb (v =? "").

Definition getKey (node : declaration) : string :=
  match dkey node with
  | Some k =>
      match kvalue k with
      | Some v => if truthyString v then v else getText (Some k)
      | None => getText (Some k)
      end
  | None => getText (dargument node)
  end.

(** [node.type === 'Property' && node.value.property &&
    node.value.property.name]; [None] is a falsy outcome. *)
Definition getValueName (node : declaration) : option string :=
  if dtype node =? "Property" then dvalueProperty node else None.

(** [/^on[A-Z]/.test(propName)] *)
Definition isCallbackPropName (propName : string) : bool :=
  match propName with
  | String "o" (String "n" (String c _)) => isUpper c
  | _ => false
  end.

Definition isRequiredProp (node : declaration) : bool :=
  match getValueName node with
  | Some name => name =? "isRequired"
  | None => false
  end.

Definition isSpread (node : declaration) : bool :=
  (dtype node =? "ExperimentalSpreadProperty") || (dtype node =? "SpreadElement").

Definition caseKey (name : string) : string :=
  if ignoreCase options then toLowerCase name else name.

(** The callback given to [declarations.reduce]: the new accumulator
    and the reports made, in order. *)
Definition compareDeclarations (prev : option declaration) (curr : declaration)
    (idx : nat) (decls : list declaration)
  : exn (option declaration * list report) :=
  if isSpread curr then Ok (nth_error decls (idx + 1), [])
  else
    match prev with
    | None => TypeError
    | Some prev =>
        let previousIsRequired := isRequiredProp prev in
        let currentIsRequired := isRequiredProp curr in
        let previousIsCallback := isCallbackPropName (getKey prev) in
        let currentIsCallback := isCallbackPropName (getKey curr) in
        let prevPropName := caseKey (getKey prev) in
        let currentPropName := caseKey (getKey curr) in
        if requiredFirst options && (previousIsRequired && negb currentIsRequired)
        then Ok (Some curr, [])
        else if requiredFirst options && (negb previousIsRequired && currentIsRequired)
        then Ok (Some curr, [{| rnode := curr; message := requiredMessage |}])
        else if callbacksLast options && (negb previousIsCallback && currentIsCallback)
        then Ok (Some curr, [])
        else if callbacksLast options && (previousIsCallback && negb currentIsCallback)
        then Ok (Some prev, [{| rnode := prev; message := callbackMessage |}])
        else if negb (noSortAlphabetically options) && js_lt currentPropName prevPropName
        then Ok (Some prev, [{| rnode := curr; message := alphabeticalMessage |}])
        else Ok (Some curr, [])
    end.

(** [Array.prototype.reduce] with an initial value: the callback runs
    on every index from 0 with the whole array at hand. [rest] is the
    part of [decls] from [idx] on. *)
Fixpoint reduceFrom (decls : list declaration) (idx : nat)
    (rest : list declaration) (acc : option declaration)
  : exn (option declaration * list report) :=
  match rest with
  | [] => Ok (acc, [])
  | curr :: rest' =>
      r <- compareDeclarations acc curr idx decls ;;
      r' <- reduceFrom decls (S idx) rest' (fst r) ;;
      Ok (fst r', snd r ++ snd r')
  end.

(** [checkSorted(declarations)]: the reports made, in order. An
    [undefined] list is left alone. *)
Definition checkSorted (declarations : option (list declaration))
  : exn (list report) :=
  match declarations with
  | None => Ok []
  | Some decls =>
      r <- reduceFrom decls 0 decls (nth_error decls 0) ;;
      Ok (snd r)
  end.

End Rule.

End SortPropTypes.

(** ** Syntax trees (lib/util/ast.js) *)

Module Ast.

Inductive functionKind : Type :=
| FunctionDeclaration
| FunctionExpression
| ArrowFunctionExpression.

Inductive loopKind : Type :=
| DoWhileStatement
| WhileStatement
| ForStatement
| ForInStatement
| ForOfStatement.

(** What can be seen of a node through a [parent] reference: which
    object it is, its [type], and its own [parent]. [NoParent] is the
    missing parent of the root. *)
Inductive parentRef : Type :=
| NoParent
| Parent (id : nat) (type : string) (parent : parentRef).

(** The ESTree nodes the locators tell apart, each with its identity,
    its [parent] and the children the source reads. A [SwitchStatement]
    holds, for each of its [cases], that case's [consequent] ([None]
    where the property is missing). [OtherNode] is any other kind of
    node (a [MethodDefinition] with its [value], a [ClassExpression]
    with its [body], an [Identifier], a [JSXElement], ...); its [type]
    is the name of none of the kinds above it. *)
Inductive node : Type :=
| ReturnStatement (id : nat) (parent : parentRef) (argument : option node)
| YieldExpression (id : nat) (parent : parentRef) (argument : option node)
| FunctionNode (id : nat) (parent : parentRef) (kind : functionKind) (body : node)
| ExpressionStatement (id : nat) (parent : parentRef) (expression : node)
| IfStatement (id : nat) (parent : parentRef) (consequent : node)
    (alternate : option node)
| LoopStatement (id : nat) (parent : parentRef) (kind : loopKind) (body : node)
| SwitchStatement (id : nat) (parent : parentRef)
    (cases : list (option (list node)))
| BlockStatement (id : nat) (parent : parentRef) (body : list node)
| OtherNode (id : nat) (parent : parentRef) (type : string)
    (value : option node) (body : option node).

(** The value of a property that holds a node, an array of nodes, or
    nothing. *)
Inductive field : Type :=
| FUndefined
| FNode (n : node)
| FArray (l : list node).

Definition functionKindName (k : functionKind) : string :=
  match k with
  | FunctionDeclaration => "FunctionDeclaration"
  | FunctionExpression => "FunctionExpression"
  | ArrowFunctionExpression => "ArrowFunctionExpression"
  end.

Definition loopKindName (k : loopKind) : string :=
  match k with
  | DoWhileStatement => "DoWhileStatement"
  | WhileStatement => "WhileStatement"
  | ForStatement => "ForStatement"
  | ForInStatement => "ForInStatement"
  | ForOfStatement => "ForOfStatement"
  end.

Definition nodeId (n : node) : nat :=
  match n with
  | ReturnStatement i _ _ | YieldExpression i _ _ | FunctionNode i _ _ _
  | ExpressionStatement i _ _ | IfStatement i _ _ _ | LoopStatement i _ _ _
  | SwitchStatement i _ _ | BlockStatement i _ _ | OtherNode i _ _ _ _ => i
  end.

Definition nodeParent (n : node) : parentRef :=
  match n with
  | ReturnStatement _ p _ | YieldExpression _ p _ | FunctionNode _ p _ _
  | ExpressionStatement _ p _ | IfStatement _ p _ _ | LoopStatement _ p _ _
  | SwitchStatement _ p _ | BlockStatement _ p _ | OtherNode _ p _ _ _ => p
  end.

(** [node.type] *)
Definition nodeType (n : node) : string :=
  match n with
  | ReturnStatement _ _ _ => "ReturnStatement"
  | YieldExpression _ _ _ => "YieldExpression"
  | FunctionNode _ _ k _ => functionKindName k
  | ExpressionStatement _ _ _ => "ExpressionStatement"
  | IfStatement _ _ _ _ => "IfStatement"
  | LoopStatement _ _ k _ => loopKindName k
  | SwitchStatement _ _ _ => "SwitchStatement"
  | BlockStatement _ _ _ => "BlockStatement"
  | OtherNode _ _ t _ _ => t
  end.

(** [node.body] *)
Definition bodyOf (n : node) : field :=
  match n with
  | FunctionNode _ _ _ b => FNode b
  | LoopStatement _ _ _ b => FNode b
  | BlockStatement _ _ l => FArray l
  | OtherNode _ _ _ _ (Some b) => FNode b
  | _ => FUndefined
  end.

(** [node.value] *)
Definition valueOf (n : node) : option node :=
  match n with
  | OtherNode _ _ _ v _ => v
  | _ => None
  end.

(** [f.body] for a property value [f]: an array has no [body]. *)
Definition fieldBody (f : field) : exn field :=
  match f with
  | FUndefined => TypeError
  | FNode n => Ok (bodyOf n)
  | FArray _ => Ok FUndefined
  end.

Definition truthyField (f : field) : bool :=
  match f with
  | FUndefined => false
  | _ => true
  end.

(** The regular expression of [isFunctionType], on a [type]. *)
Definition functionTypeName (t : string) : bool :=
  (t =? "FunctionDeclaration") || (t =? "FunctionExpression")
  || (t =? "ArrowFunctionExpression").

(** The regular expression of [isSupportedBodyType], on a [type]. *)
Definition supportedBodyTypeName (t : string) : bool :=
  (t =? "DoWhileStatement") || (t =? "WhileStatement")
  || (t =? "ForStatement") || (t =? "ForInStatement") || (t =? "ForOfStatement")
  || (t =? "IfStatement") || (t =? "ExpressionStatement").

Definition isFunctionType (n : node) : bool := functionTypeName (nodeType n).

Definition isSupportedBodyType (n : node) : bool :=
  supportedBodyTypeName (nodeType n).

Definition isType (t : string) (n : node) : bool := nodeType n =? t.

(** The reference through which a child sees [n]. *)
Definition refTo (n : node) : parentRef :=
  Parent (nodeId n) (nodeType n) (nodeParent n).

(** Every array is an object, hence truthy, whatever its length. *)
Definition truthyArray {A : Type} (l : list A) : bool := true.

End Ast.

(** ** [findJSXReturnStatement] *)

Module JSXReturn.
Import Ast.

(** What [loopNodes] hands back: [false], a node, or an array of
    nodes. *)
Inductive reduced : Type :=
| RFalse
| RNode (n : node)
| RArray (l : list node).

(** An element of an array that may hold [false] besides nodes. *)
Definition element : Type := option node.

(** What [flatMap(xs, (_) => _)] makes of one element of [xs]: an array
    is spliced in, anything else is kept as it is. *)
Definition splice (r : reduced) : list element :=
  match r with
  | RFalse => [None]
  | RNode n => [Some n]
  | RArray l => map Some l
  end.

Definition flatMapId (rs : list reduced) : list element := flat_map splice rs.

(** [.filter((n) => n)] *)
Fixpoint truthy (l : list element) : list node :=
  match l with
  | [] => []
  | Some n :: l' => n :: truthy l'
  | None :: l' => truthy l'
  end.

(** The [while (parent)] loop of [loopNodes], from [parent] on:
    [Some r] when the loop returns [r], [None] when it runs off the
    root. [node] is the identity of the node being resolved. *)
Fixpoint walk (node : nat) (bnode : Ast.node) (parent : parentRef)
  : option reduced :=
  match parent with
  | NoParent => None
  | Parent id type parent' =>
      if functionTypeName type && negb (id =? node)%nat then Some RFalse
      else if (id =? node)%nat then Some (RNode bnode)
      else walk node bnode parent'
  end.

(** The first [if] of [loopNodes]. *)
Definition boundary (node : nat) (bnode : Ast.node) : option reduced :=
  if isType "ReturnStatement" bnode || isType "YieldExpression" bnode
     || isFunctionType bnode
  then walk node bnode (refTo bnode)
  else None.

(** What the outer [flatMap] of the switch reduction is given for one
    case: an array, or [false] ([None]). *)
Definition spliceCase (c : option (list element)) : list element :=
  match c with
  | Some l => l
  | None => [None]
  end.

(** [loopNodes(bnode)]; [bnode] is never missing here. The two-element
    [ifStatements] array is reduced element by element. *)
Fixpoint loopNodes (node : nat) (bnode : Ast.node) : reduced :=
  match boundary node bnode with
  | Some r => r
  | None =>
      match bnode with
      | ExpressionStatement _ _ expression => RNode expression
      | IfStatement _ _ consequent None =>
          if negb (isType "BlockStatement" consequent)
          then loopNodes node consequent
          else RFalse
      | IfStatement _ _ consequent (Some alternate) =>
          let fromConsequent :=
            if negb (isType "BlockStatement" consequent)
            then splice (loopNodes node consequent) else [] in
          let fromAlternate :=
            if negb (isType "BlockStatement" alternate)
            then splice (loopNodes node alternate) else [] in
          RArray (truthy (fromConsequent ++ fromAlternate))
      | LoopStatement _ _ _ body =>
          if negb (isType "BlockStatement" body)
          then loopNodes node body
          else RFalse
      | SwitchStatement _ _ cases =>
          RArray (truthy (flat_map spliceCase
            (map (fun switchCase =>
                    match switchCase with
                    | Some consequent =>
                        match consequent with
                        | [] => None
                        | _ :: _ =>
                            Some (flatMapId (map (loopNodes node) consequent))
                        end
                    | None => None
                    end) cases)))
      | _ => RFalse
      end
  end.

(** A scope of [sourceCode.scopeManager.scopes]. *)
Record scope : Type := {
  scopeType : string;
  block : Ast.node
}.

(** What the callback of [scopes.map] returns. *)
Inductive contribution : Type :=
| CNull
| CNode (n : Ast.node)
| CArray (l : list Ast.node).

Definition isReturnOrSupported (body : Ast.node) : bool :=
  isType "ReturnStatement" body || isSupportedBodyType body.

Definition scopeNodes (s : scope) : exn contribution :=
  if (scopeType s =? "function") && isFunctionType (block s) then
    bb <- fieldBody (bodyOf (block s)) ;;
    match bb with
    | FUndefined => Ok (CNode (block s))
    | FNode _ => Ok CNull
    | FArray stmts =>
        let retStatement := filter isReturnOrSupported stmts in
        if negb (List.length retStatement =? 0)%nat
        then if (List.length stmts =? 0)%nat then Ok CNull else Ok (CArray retStatement)
        else Ok CNull
    end
  else if (scopeType s =? "block") && isType "BlockStatement" (block s) then
    match bodyOf (block s) with
    | FArray stmts =>
        let retStatement := filter (fun _ => true) stmts in
        if negb (List.length retStatement =? 0)%nat
        then if (List.length stmts =? 0)%nat then Ok CNull else Ok (CArray retStatement)
        else Ok CNull
    | _ => TypeError
    end
  else if (scopeType s =? "switch") && isType "SwitchStatement" (block s) then
    Ok (CNode (block s))
  else if scopeType s =? "for" then
    match bodyOf (block s) with
    | FUndefined => TypeError
    | FNode b => if negb (isType "BlockStatement" b) then Ok (CNode b) else Ok CNull
    | FArray l => Ok (CArray l)
    end
  else Ok CNull.

(** [.filter((scope) => scope !== null && scope.length !== 0)] *)
Definition kept (c : contribution) : bool :=
  match c with
  | CNull => false
  | CNode _ => true
  | CArray l => negb (List.length l =? 0)%nat
  end.

Definition spliceContribution (c : contribution) : list Ast.node :=
  match c with
  | CNull => []
  | CNode n => [n]
  | CArray l => l
  end.

Fixpoint mapScopes (scopes : list scope) : exn (list contribution) :=
  match scopes with
  | [] => Ok []
  | s :: scopes' =>
      c <- scopeNodes s ;;
      cs <- mapScopes scopes' ;;
      Ok (c :: cs)
  end.

(** [Found l] is an array, [NotFound] is [false]. *)
Inductive result : Type :=
| Found (l : list element)
| NotFound.

Definition findJSXReturnStatement (node : Ast.node) (scopes : list scope)
  : exn result :=
  let initial :=
    if isType "ReturnStatement" node || isType "YieldExpression" node
    then [node] else [] in
  let node' :=
    if isFunctionType node
    then match valueOf node with Some v => v | None => node end
    else node in
  bodyNodes <-
    (if isFunctionType node
     then cs <- mapScopes scopes ;;
          Ok (flat_map spliceContribution (filter kept cs))
     else Ok initial) ;;
  if truthyArray bodyNodes
  then Ok (Found (flatMapId (map (loopNodes (nodeId node')) bodyNodes)))
  else Ok NotFound.

End JSXReturn.

(** ** [findReturnStatement] *)

Module TrailingReturn.
Import Ast.

(** [Located n] is a node, [NotLocated] is [false]. *)
Inductive located : Type :=
| Located (n : node)
| NotLocated.

(** One turn of the [for] loop of [loopNodes], on [nodes[i]]: [Some r]
    when the turn returns [r], [None] when the loop goes on. The inner
    [for] loop starts at the last case and returns in its first turn. *)
Fixpoint visit (n : node) : option (exn located) :=
  match n with
  | ReturnStatement _ _ _ => Some (Ok (Located n))
  | SwitchStatement _ _ cases =>
      (fix lastCase (cs : list (option (list node))) : option (exn located) :=
         match cs with
         | [] => None
         | c :: cs' =>
             match cs' with
             | [] =>
                 match c with
                 | None => Some TypeError
                 | Some consequent =>
                     Some (match
                             (fix scan (l : list node) : option (exn located) :=
                                match l with
                                | [] => None
                                | x :: l' =>
                                    match scan l' with
                                    | Some r => Some r
                                    | None => visit x
                                    end
                                end) consequent
                           with
                           | Some r => r
                           | None => Ok NotLocated
                           end)
                 end
             | _ :: _ => lastCase cs'
             end
         end) cases
  | _ => None
  end.

(** The [for] loop over [nodes], from the last index down: [None] when
    it runs to the end without returning. *)
Fixpoint scan (nodes : list node) : option (exn located) :=
  match nodes with
  | [] => None
  | x :: nodes' =>
      match scan nodes' with
      | Some r => Some r
      | None => visit x
      end
  end.

(** [loopNodes(nodes)] on an array. *)
Definition loopNodes (nodes : list node) : exn located :=
  match scan nodes with
  | Some r => r
  | None => Ok NotLocated
  end.

(** [loopNodes(nodes)] on any value: a node has no [length], so the
    loop does not run. *)
Definition loopNodesOn (nodes : field) : exn located :=
  match nodes with
  | FUndefined => TypeError
  | FNode _ => Ok NotLocated
  | FArray l => loopNodes l
  end.

(** [!x.body || !x.body.body] for a node [x]. *)
Definition lacksBody (x : node) : bool :=
  match bodyOf x with
  | FUndefined => true
  | FNode b => negb (truthyField (bodyOf b))
  | FArray _ => true
  end.

Definition findReturnStatement (node : Ast.node) : exn located :=
  if (match valueOf node with None => true | Some v => lacksBody v end)
     && lacksBody node
  then Ok NotLocated
  else
    bodyNodes <-
      (match valueOf node with
       | Some v => fieldBody (bodyOf v)
       | None => fieldBody (bodyOf node)
       end) ;;
    loopNodesOn bodyNodes.

End TrailingReturn.

(** ** Reading the reports of a run *)

Module SortReduction.
Import SortPropTypes.

(** The reports of a run, without its last accumulator. *)
Definition reportsOf (r : exn (option declaration * list report))
  : exn (list report) :=
  x <- r ;; Ok (snd x).

(** The accumulator is there whenever a member is compared with it. *)
Definition ready (acc : option declaration) (rest : list declaration) : Prop :=
  match rest with
  | [] => True
  | c :: _ => isSpread c = true \/ acc <> None
  end.

Definition isRequiredReport (r : report) : bool :=
  message r =? requiredMessage.

(** The members that are required and come right after a member that is
    neither required nor a spread, given the member [before] the list. *)
Fixpoint requiredAfterOptional (before : option declaration)
    (l : list declaration) : list declaration :=
  match l with
  | [] => []
  | c :: l' =>
      match before with
      | Some p =>
          if negb (isSpread p) && negb (isRequiredProp p) && isRequiredProp c
          then c :: requiredAfterOptional (Some c) l'
          else requiredAfterOptional (Some c) l'
      | None => requiredAfterOptional (Some c) l'
      end
  end.

End SortReduction.

(** ** Declarations used as examples *)

Module SortExamples.
Import SortPropTypes.

(** [name: PropTypes.<type>] or, with [valueProperty] ["isRequired"],
    [name: PropTypes.<type>.isRequired]. *)
Definition property (id : nat) (name : string) (valueProperty : string)
  : declaration :=
  {| did := id; dtype := "Property";
     dkey := Some {| kvalue := None; ktext := name |};
     dargument := None;
     dvalueProperty := Some valueProperty |}.

(** [...name] *)
Definition spread (id : nat) (name : string) : declaration :=
  {| did := id; dtype := "SpreadElement";
     dkey := None;
     dargument := Some {| kvalue := None; ktext := name |};
     dvalueProperty := None |}.

Definition defaults : configuration :=
  {| requiredFirst := false; callbacksLast := false; ignoreCase := false;
     noSortAlphabetically := false; sortShapeProp := false |}.

Definition onClick := property 0 "onClick" "func".
Definition value := property 1 "value" "string".
Definition onHover := property 2 "onHover" "func".

Definition a_required := property 0 "a" "isRequired".
Definition b_optional := property 1 "b" "string".
Definition c_required := property 2 "c" "isRequired".

Definition b := property 0 "b" "string".
Definition rest := spread 1 "rest".
Definition a := property 2 "a" "string".


End SortExamples.

(** ** Reading the switch reduction and the trailing scan *)

Module AstReading.
Import Ast.

(** The nodes of a reduction. *)
Definition nodesOf (r : JSXReturn.reduced) : list Ast.node :=
  JSXReturn.truthy (JSXReturn.splice r).

(** What one case of a switch adds to the reduction of the switch: the
    nodes its own statements reduce to, statement after statement. *)
Definition caseContribution (node : nat) (switchCase : option (list Ast.node))
  : list Ast.node :=
  match switchCase with
  | Some consequent =>
      flat_map (fun statement => nodesOf (JSXReturn.loopNodes node statement)) consequent
  | None => []
  end.

(** The chain [n], [n.parent], ... comes to the object [target] before
    it comes to any other function. *)
Fixpoint within (target : nat) (chain : parentRef) : bool :=
  match chain with
  | NoParent => false
  | Parent id type parent =>
      if (id =? target)%nat then true
      else if functionTypeName type then false
      else within target parent
  end.

(** The expressions of the expression statements that [loopNodes] comes
    to from [n]: these it hands back without the walk up the parents. *)
Fixpoint statementExpressions (n : Ast.node) : list Ast.node :=
  match n with
  | ExpressionStatement _ _ expression => [expression]
  | IfStatement _ _ consequent alternate =>
      statementExpressions consequent
      ++ match alternate with
         | Some a => statementExpressions a
         | None => []
         end
  | LoopStatement _ _ _ body => statementExpressions body
  | SwitchStatement _ _ cases =>
      flat_map (fun c => match c with
                         | Some consequent => flat_map statementExpressions consequent
                         | None => []
                         end) cases
  | _ => []
  end.



Definition onOption (P : Ast.node -> Prop) (o : option Ast.node) : Prop :=
  match o with
  | Some n => P n
  | None => True
  end.

Definition onCase (P : Ast.node -> Prop) (c : option (list Ast.node)) : Prop :=
  match c with
  | Some l => Forall P l
  | None => True
  end.

Section Induction.

Variable P : Ast.node -> Prop.

Hypothesis onReturn : forall id parent argument,
    onOption P argument -> P (ReturnStatement id parent argument).
Hypothesis onYield : forall id parent argument,
    onOption P argument -> P (YieldExpression id parent argument).
Hypothesis onFunction : forall id parent kind body,
    P body -> P (FunctionNode id parent kind body).
Hypothesis onExpression : forall id parent expression,
    P expression -> P (ExpressionStatement id parent expression).
Hypothesis onIf : forall id parent consequent alternate,
    P consequent -> onOption P alternate ->
    P (IfStatement id parent consequent alternate).
Hypothesis onLoop : forall id parent kind body,
    P body -> P (LoopStatement id parent kind body).
Hypothesis onSwitch : forall id parent cases,
    Forall (onCase P) cases -> P (SwitchStatement id parent cases).
Hypothesis onBlock : forall id parent body,
    Forall P body -> P (BlockStatement id parent body).
Hypothesis onOther : forall id parent type value body,
    onOption P value -> onOption P body -> P (OtherNode id parent type value body).

(** Induction on a node with its children, those in lists included. *)
Fixpoint node_induction (n : Ast.node) : P n :=
  let onList :=
    fix onList (l : list Ast.node) : Forall P l :=
      match l with
      | [] => Forall_nil P
      | x :: l' => Forall_cons x (node_induction x) (onList l')
      end in
  let onSome (o : option Ast.node) : onOption P o :=
    match o with
    | Some x => node_induction x
    | None => I
    end in
  match n with
  | ReturnStatement id parent argument => onReturn id parent argument (onSome argument)
  | YieldExpression id parent argument => onYield id parent argument (onSome argument)
  | FunctionNode id parent kind body => onFunction id parent kind body (node_induction body)
  | ExpressionStatement id parent expression =>
      onExpression id parent expression (node_induction expression)
  | IfStatement id parent consequent alternate =>
      onIf id parent consequent alternate (node_induction consequent) (onSome alternate)
  | LoopStatement id parent kind body => onLoop id parent kind body (node_induction body)
  | SwitchStatement id parent cases =>
      onSwitch id parent cases
        ((fix onCases (cs : list (option (list Ast.node))) : Forall (onCase P) cs :=
            match cs with
            | [] => Forall_nil (onCase P)
            | c :: cs' =>
                Forall_cons c
                  (match c return onCase P c with
                   | Some l => onList l
                   | None => I
                   end)
                  (onCases cs')
            end) cases)
  | BlockStatement id parent body => onBlock id parent body (onList body)
  | OtherNode id parent type value body =>
      onOther id parent type value body (onSome value) (onSome body)
  end.

End Induction.

End AstReading.

(** ** Trees used as examples *)

Module AstExamples.
Import Ast.

Definition program : node := OtherNode 0 NoParent "Program" None None.
Definition inProgram : parentRef := refTo program.

Definition scopeOf (type : string) (block : node) : JSXReturn.scope :=
  {| JSXReturn.scopeType := type; JSXReturn.block := block |}.

(** [function f() {}] *)
Module Empty.
Definition inF : parentRef := Parent 1 "FunctionDeclaration" inProgram.
Definition body : node := BlockStatement 2 inF [].
Definition f : node := FunctionNode 1 inProgram FunctionDeclaration body.
Definition scopes : list JSXReturn.scope :=
  [scopeOf "global" program; scopeOf "function" f].
End Empty.

(** [function f() { function* g() { yield 1; } }] *)
Module Generator.
Definition inF : parentRef := Parent 1 "FunctionDeclaration" inProgram.
Definition inFBody : parentRef := Parent 2 "BlockStatement" inF.
Definition inG : parentRef := Parent 3 "FunctionDeclaration" inFBody.
Definition inGBody : parentRef := Parent 4 "BlockStatement" inG.
Definition inStatement : parentRef := Parent 5 "ExpressionStatement" inGBody.
Definition inYield : parentRef := Parent 6 "YieldExpression" inStatement.
Definition one : node := OtherNode 7 inYield "Literal" None None.
Definition yieldOne : node := YieldExpression 6 inStatement (Some one).
Definition statement : node := ExpressionStatement 5 inGBody yieldOne.
Definition g : node :=
  FunctionNode 3 inFBody FunctionDeclaration (BlockStatement 4 inG [statement]).
Definition f : node :=
  FunctionNode 1 inProgram FunctionDeclaration (BlockStatement 2 inF [g]).
Definition scopes : list JSXReturn.scope :=
  [scopeOf "global" program; scopeOf "function" f; scopeOf "function" g].
End Generator.

(** [function f() { return 0; switch (x) { case 1: return 1; case 2: ;
    default: ; } }] *)
Module Switch.
Definition inF : parentRef := Parent 1 "FunctionDeclaration" inProgram.
Definition inBody : parentRef := Parent 2 "BlockStatement" inF.
Definition inSwitch : parentRef := Parent 4 "SwitchStatement" inBody.
Definition inCase (id : nat) : parentRef := Parent id "SwitchCase" inSwitch.
Definition returnZero : node := ReturnStatement 3 inBody None.
Definition returnOne : node := ReturnStatement 8 (inCase 5) None.
Definition emptyTwo : node := OtherNode 9 (inCase 6) "EmptyStatement" None None.
Definition emptyThree : node := OtherNode 10 (inCase 7) "EmptyStatement" None None.
Definition switch : node :=
  SwitchStatement 4 inBody [Some [returnOne]; Some [emptyTwo]; Some [emptyThree]].
Definition f : node :=
  FunctionNode 1 inProgram FunctionDeclaration
    (BlockStatement 2 inF [returnZero; switch]).
End Switch.

(** [function f() { switch (x) { case 1: return 1; case 2: } }] *)
Module Cases.
Definition inF : parentRef := Parent 1 "FunctionDeclaration" inProgram.
Definition inBody : parentRef := Parent 2 "BlockStatement" inF.
Definition inSwitch : parentRef := Parent 3 "SwitchStatement" inBody.
Definition returnOne : node :=
  ReturnStatement 5 (Parent 4 "SwitchCase" inSwitch) None.
Definition switch : node := SwitchStatement 3 inBody [Some [returnOne]; Some []].
Definition f : node :=
  FunctionNode 1 inProgram FunctionDeclaration (BlockStatement 2 inF [switch]).
Definition scopes : list JSXReturn.scope :=
  [scopeOf "global" program; scopeOf "function" f; scopeOf "switch" switch].
End Cases.

End AstExamples.


(** ** Reading whole runs of [checkSorted] *)

Module SortOrder.
Import SortPropTypes.

(** Every member is followed, where it is followed at all, by one it
    stands in [R] with. *)
Fixpoint chain {A : Type} (R : A -> A -> Prop) (l : list A) : Prop :=
  match l with
  | [] => True
  | x :: l' =>
      match l' with
      | [] => True
      | y :: _ => R x y /\ chain R l'
      end
  end.

Section Keys.

Variable options : configuration.
Variable sourceText : string.




End Keys.

Definition isKnownMessage (m : string) : Prop :=
  m = requiredMessage \/ m = callbackMessage \/ m = alphabeticalMessage.

(** What a report of a run over [decls] is like. *)
Definition soundReport (decls : list declaration) (r : report) : Prop :=
  In (rnode r) decls /\ isSpread (rnode r) = false /\ isKnownMessage (message r).

(** A comparison that makes no report: it takes the current member as
    the next accumulator. *)
Definition silent (o : configuration) (src : string) (prev curr : declaration)
  : Prop :=
  compareDeclarations o src (Some prev) curr 0 [] = Ok (Some curr, []).

(** [l] is a run of members on which [f] is false followed by a run of
    members on which it is true, each run in the order [R]. *)
Definition twoRuns {A : Type} (f : A -> bool) (R : A -> A -> Prop) (l : list A)
  : Prop :=
  exists l1 l2,
    l = l1 ++ l2
    /\ Forall (fun x => f x = false) l1 /\ Forall (fun x => f x = true) l2
    /\ chain R l1 /\ chain R l2.

Definition plain (l : list declaration) : Prop :=
  Forall (fun d => isSpread d = false) l.

(** [o] with [ignoreCase] set to [b]. *)
Definition withIgnoreCase (b : bool) (o : configuration) : configuration :=
  {| requiredFirst := requiredFirst o; callbacksLast := callbacksLast o;
     ignoreCase := b; noSortAlphabetically := noSortAlphabetically o;
     sortShapeProp := sortShapeProp o |}.

End SortOrder.


(** ** The node tests of lib/util/ast.js *)

Module AstTests.
Import Ast.

Definition isFunctionLikeExpression (n : node) : bool :=
  isType "FunctionExpression" n || isType "ArrowFunctionExpression" n.

Definition isFunction (n : node) : bool :=
  isType "FunctionExpression" n || isType "FunctionDeclaration" n.

Definition isClass (n : node) : bool :=
  isType "ClassDeclaration" n || isType "ClassExpression" n.

(** A statement with the statements of its cases, and of their cases,
    if it is a switch. *)
Fixpoint caseStatements (n : node) : list node :=
  n :: match n with
       | SwitchStatement _ _ cases =>
           flat_map (fun c => match c with
                              | Some consequent => flat_map caseStatements consequent
                              | None => []
                              end) cases
       | _ => []
       end.

(** Every case of every switch among the [caseStatements] of [n] has
    its [consequent]. *)
Fixpoint casesComplete (n : node) : bool :=
  match n with
  | SwitchStatement _ _ cases =>
      forallb (fun c => match c with
                        | Some consequent => forallb casesComplete consequent
                        | None => false
                        end) cases
  | _ => true
  end.

Definition isReturnStatement (n : node) : Prop :=
  exists id parent argument, n = ReturnStatement id parent argument.

(** What an unbraced branch adds to the reduction of the statement it
    belongs to; a block adds nothing. *)
Definition unbraced (node : nat) (branch : Ast.node) : list Ast.node :=
  if isType "BlockStatement" branch then []
  else AstReading.nodesOf (JSXReturn.loopNodes node branch).

(** A function, a loop or a block statement: the nodes that ESTree
    gives a [body]. *)
Definition bodied (n : node) : bool :=
  match n with
  | FunctionNode _ _ _ _ | LoopStatement _ _ _ _ | BlockStatement _ _ _ => true
  | _ => false
  end.

(** A scope as the scope manager makes them: a function, block or for
    scope stands on a node with a body. *)
Definition scopeOnBody (s : JSXReturn.scope) : bool :=
  if (JSXReturn.scopeType s =? "function") || (JSXReturn.scopeType s =? "block")
     || (JSXReturn.scopeType s =? "for")
  then bodied (JSXReturn.block s)
  else true.

End AstTests.

(** ** [getFirstNodeInLine] and [isNodeFirstInLine] *)

Module Tokens.

(** A token as the two functions read it: [type], [value] and
    [loc.end.line]. *)
Record token : Type := {
  tokenType : string;
  tokenValue : string;
  endLine : nat
}.









End Tokens.

(** ** [checkNode] (lib/rules/sort-prop-types.js) *)

Module CheckNode.
Import SortPropTypes.

(** The expressions [checkNode] tells apart. A call holds the [name] of
    its [callee], where the callee has one, and its [arguments]. *)
Inductive expression : Type :=
| ObjectExpression (properties : list declaration)
| Identifier (name : string)
| CallExpression (calleeName : option string) (arguments : list expression)
| OtherExpression (type : string).

Section Rule.

Variable options : configuration.
Variable sourceText : string.

(** [variableUtil.findVariableByName(context, name)]: what the name is
    bound to, if anything, and its [properties], if it has any. *)
Variable findVariableByName : string -> option (option (list declaration)).

(** [propWrapperUtil.isPropWrapperFunction(context, name)] *)
Variable isPropWrapperFunction : option string -> bool.

Fixpoint checkNode (node : expression) : exn (list report) :=
  match node with
  | ObjectExpression properties => checkSorted options sourceText (Some properties)
  | Identifier name =>
      match findVariableByName name with
      | Some (Some properties) => checkSorted options sourceText (Some properties)
      | _ => Ok []
      end
  | CallExpression calleeName arguments =>
      match arguments with
      | innerNode :: _ =>
          if isPropWrapperFunction calleeName then checkNode innerNode else Ok []
      | [] => Ok []
      end
  | OtherExpression _ => Ok []
  end.

End Rule.

(** [e] as the first argument of a call, of a call, ...: one call for
    each callee name and list of further arguments, the outermost
    first. *)
Fixpoint wrapped (calls : list (option string * list expression)) (e : expression)
  : expression :=
  match calls with
  | [] => e
  | (calleeName, others) :: calls' =>
      CallExpression calleeName (wrapped calls' e :: others)
  end.

End CheckNode.

(** * Properties *)

Import SortPropTypes SortReduction.

(** ** Strings *)

Lemma dropTrailingQuote_snoc (s : string) :
  dropTrailingQuote (s ++ String quote EmptyString)%string = s.
Proof.
  induction s as [|c s IH]; simpl.
  - reflexivity.
  - rewrite IH. destruct s; reflexivity.
Qed.

Lemma dropTrailingQuote_keeps (s : string) :
  (forall t, s <> (t ++ String quote EmptyString)%string) -> dropTrailingQuote s = s.
Proof.
  induction s as [|c s IH]; intros H; simpl.
  - reflexivity.
  - destruct s as [|d s'].
    + destruct (Ascii.eqb_spec c quote) as [->|]; [|reflexivity].
      exfalso. apply (H EmptyString). reflexivity.
    + f_equal. apply IH. intros t Ht. apply (H (String c t)).
      simpl. now rewrite Ht.
Qed.

Lemma js_lt_irrefl (s : string) : js_lt s s = false.
Proof.
  unfold js_lt, String.ltb.
  assert (A := String.compare_antisym s s).
  destruct (String.compare s s); simpl in A; [reflexivity|discriminate A|reflexivity].
Qed.

(** ** One comparison *)

Lemma compareDeclarations_spread o src prev curr idx decls :
  isSpread curr = true ->
  compareDeclarations o src prev curr idx decls = Ok (nth_error decls (idx + 1), []).
Proof. intros H. unfold compareDeclarations. now rewrite H. Qed.

Lemma compareDeclarations_context o src prev curr idx decls idx' decls' :
  isSpread curr = false ->
  compareDeclarations o src prev curr idx decls
  = compareDeclarations o src prev curr idx' decls'.
Proof. intros H. unfold compareDeclarations. now rewrite H. Qed.

Lemma compareDeclarations_self o src curr idx decls :
  isSpread curr = false ->
  compareDeclarations o src (Some curr) curr idx decls = Ok (Some curr, []).
Proof.
  intros H. unfold compareDeclarations. rewrite H, js_lt_irrefl.
  destruct (isRequiredProp curr), (isCallbackPropName (getKey src curr));
    rewrite ?andb_false_r; simpl; rewrite ?andb_false_r; reflexivity.
Qed.

Lemma spread_not_required d : isSpread d = true -> isRequiredProp d = false.
Proof.
  unfold isSpread, isRequiredProp, getValueName. intros H.
  destruct (String.eqb_spec (dtype d) "Property") as [E|]; [|reflexivity].
  rewrite E in H. discriminate H.
Qed.

(** The outcomes of one comparison of two members. *)
Lemma compareDeclarations_cases o src prev curr idx decls :
  isSpread curr = false ->
  compareDeclarations o src (Some prev) curr idx decls = Ok (Some curr, [])
  \/ compareDeclarations o src (Some prev) curr idx decls
     = Ok (Some curr, [{| rnode := curr; message := requiredMessage |}])
  \/ compareDeclarations o src (Some prev) curr idx decls
     = Ok (Some prev, [{| rnode := prev; message := callbackMessage |}])
  \/ compareDeclarations o src (Some prev) curr idx decls
     = Ok (Some prev, [{| rnode := curr; message := alphabeticalMessage |}]).
Proof.
  intros H. unfold compareDeclarations. rewrite H.
  repeat match goal with
         | |- context [if ?b then _ else _] => destruct b
         end; auto.
Qed.

(** ** The whole reduction *)

Lemma reduceFrom_cons o src decls idx curr rest acc :
  reduceFrom o src decls idx (curr :: rest) acc
  = (r <- compareDeclarations o src acc curr idx decls ;;
     r' <- reduceFrom o src decls (S idx) rest (fst r) ;;
     Ok (fst r', snd r ++ snd r')).
Proof. reflexivity. Qed.

(** The callback looks at the array only one element ahead: two runs over
    the same elements agree when every look ahead does. *)
Lemma reduceFrom_ext o src rest :
  forall decls idx decls' idx' acc,
    (forall k, k < List.length rest ->
               nth_error decls (idx + S k) = nth_error decls' (idx' + S k)) ->
    reduceFrom o src decls idx rest acc = reduceFrom o src decls' idx' rest acc.
Proof.
  induction rest as [|c rest IH]; intros decls idx decls' idx' acc H.
  - reflexivity.
  - rewrite !reduceFrom_cons.
    assert (E : compareDeclarations o src acc c idx decls
                = compareDeclarations o src acc c idx' decls').
    { destruct (isSpread c) eqn:Sp.
      - rewrite !compareDeclarations_spread by assumption.
        specialize (H 0 ltac:(simpl; lia)).
        rewrite !Nat.add_1_r in *. now rewrite H.
      - now apply compareDeclarations_context. }
    rewrite E. destruct (compareDeclarations o src acc c idx' decls'); simpl; [|reflexivity].
    rewrite (IH decls (S idx) decls' (S idx')); [reflexivity|].
    intros k Hk. specialize (H (S k) ltac:(simpl; lia)).
    now replace (S idx + S k) with (idx + S (S k)) by lia;
      replace (S idx' + S k) with (idx' + S (S k)) by lia.
Qed.

(** The last look ahead only decides the final accumulator. *)
Lemma reduceFrom_reports_ext o src rest :
  forall decls idx decls' idx' acc,
    (forall k, S k < List.length rest ->
               nth_error decls (idx + S k) = nth_error decls' (idx' + S k)) ->
    reportsOf (reduceFrom o src decls idx rest acc)
    = reportsOf (reduceFrom o src decls' idx' rest acc).
Proof.
  induction rest as [|c rest IH]; intros decls idx decls' idx' acc H.
  - reflexivity.
  - rewrite !reduceFrom_cons.
    destruct (isSpread c) eqn:Sp.
    + rewrite !compareDeclarations_spread by assumption. simpl.
      destruct rest as [|c' rest'].
      * reflexivity.
      * specialize (H 0 ltac:(simpl; lia)) as H0.
        rewrite !Nat.add_1_r in *. rewrite H0.
        assert (IH' := IH decls (S idx) decls' (S idx') (nth_error decls' (S idx'))).
        unfold reportsOf in IH'.
        assert (P : forall k, S k < List.length (c' :: rest') ->
                      nth_error decls (S idx + S k) = nth_error decls' (S idx' + S k)).
        { intros k Hk. specialize (H (S k) ltac:(simpl in *; lia)).
          now replace (S idx + S k) with (idx + S (S k)) by lia;
            replace (S idx' + S k) with (idx' + S (S k)) by lia. }
        specialize (IH' P).
        destruct (reduceFrom o src decls (S idx) (c' :: rest') (nth_error decls' (S idx')));
          destruct (reduceFrom o src decls' (S idx') (c' :: rest') (nth_error decls' (S idx')));
          simpl in *; congruence.
    + rewrite (compareDeclarations_context o src acc c idx decls idx' decls' Sp).
      destruct (compareDeclarations o src acc c idx' decls') as [r|]; simpl; [|reflexivity].
      assert (IH' := IH decls (S idx) decls' (S idx') (fst r)).
      unfold reportsOf in IH'.
      assert (P : forall k, S k < List.length rest ->
                    nth_error decls (S idx + S k) = nth_error decls' (S idx' + S k)).
      { intros k Hk. specialize (H (S k) ltac:(simpl in *; lia)).
        now replace (S idx + S k) with (idx + S (S k)) by lia;
          replace (S idx' + S k) with (idx' + S (S k)) by lia. }
      specialize (IH' P).
      destruct (reduceFrom o src decls (S idx) rest (fst r));
        destruct (reduceFrom o src decls' (S idx') rest (fst r));
        simpl in *; congruence.
Qed.

Lemma reduceFrom_app o src decls l1 :
  forall idx l2 acc,
    reduceFrom o src decls idx (l1 ++ l2) acc
    = (r1 <- reduceFrom o src decls idx l1 acc ;;
       r2 <- reduceFrom o src decls (idx + List.length l1) l2 (fst r1) ;;
       Ok (fst r2, snd r1 ++ snd r2)).
Proof.
  induction l1 as [|c l1 IH]; intros idx l2 acc.
  - simpl. rewrite Nat.add_0_r.
    destruct (reduceFrom o src decls idx l2 acc) as [[a r]|]; reflexivity.
  - rewrite <- app_comm_cons, !reduceFrom_cons.
    destruct (compareDeclarations o src acc c idx decls) as [r|]; simpl; [|reflexivity].
    rewrite IH. simpl.
    destruct (reduceFrom o src decls (S idx) l1 (fst r)) as [r1|]; simpl; [|reflexivity].
    rewrite <- plus_n_Sm.
    destruct (reduceFrom o src decls (S (idx + List.length l1)) l2 (fst r1)) as [r2|];
      simpl; [|reflexivity].
    now rewrite app_assoc.
Qed.

Lemma reduceFrom_total o src rest :
  forall done acc,
    ready acc rest ->
    exists acc' rs,
      reduceFrom o src (done ++ rest) (List.length done) rest acc = Ok (acc', rs).
Proof.
  induction rest as [|c rest IH]; intros done acc R.
  - simpl. eauto.
  - rewrite reduceFrom_cons.
    assert (N : nth_error (done ++ c :: rest) (List.length done + 1) = hd_error rest).
    { rewrite nth_error_app2 by lia.
      replace (List.length done + 1 - List.length done) with 1 by lia.
      destruct rest; reflexivity. }
    assert (D : (done ++ c :: rest) = (done ++ [c]) ++ rest) by now rewrite <- app_assoc.
    assert (L : S (List.length done) = List.length (done ++ [c]))
      by (rewrite length_app; simpl; lia).
    destruct (isSpread c) eqn:Sp.
    + rewrite compareDeclarations_spread, N by assumption. simpl.
      destruct (IH (done ++ [c]) (hd_error rest)) as (a & rs & E).
      { destruct rest; simpl; [exact I|right; discriminate]. }
      rewrite D, L, E. simpl. eauto.
    + destruct R as [R|R]; [congruence|].
      destruct acc as [prev|]; [|congruence].
      destruct (compareDeclarations_cases o src prev c (List.length done)
                  (done ++ c :: rest) Sp) as [E|[E|[E|E]]];
        rewrite E; simpl;
        match goal with
        | |- context [reduceFrom _ _ _ _ _ (Some ?x)] =>
            destruct (IH (done ++ [c]) (Some x)) as (a & rs & E');
            [destruct rest; simpl; [exact I|right; discriminate]|];
            rewrite D, L, E'; simpl; eauto
        end.
Qed.

Lemma checkSorted_total o src decls :
  exists rs, checkSorted o src decls = Ok rs.
Proof.
  destruct decls as [decls|]; simpl; [|eauto].
  destruct (reduceFrom_total o src decls [] (nth_error decls 0)) as (a & rs & E).
  { destruct decls; simpl; [exact I|right; discriminate]. }
  simpl in E. rewrite E. simpl. eauto.
Qed.

(** ** The layers of [checkSorted] *)

Ltac layers :=
  unfold compareDeclarations;
  repeat match goal with
         | H : _ = _ |- _ => rewrite H
         end;
  simpl; rewrite ?andb_false_r, ?andb_true_r; simpl; try reflexivity.

(** C3. With [callbacksLast] set, a pair that the required-first layer
    lets through and that goes from a callback name to another name is
    reported on the earlier member, with the callback message, and the
    earlier member stays the accumulator; a pair that goes from another
    name to a callback name is taken without a report and the callback
    becomes the accumulator. For [onClick, value, onHover] the reports
    are exactly one, on [onClick]. *)
Theorem callbacksLast_layer (o : configuration) (src : string) :
  callbacksLast o = true ->
  (forall prev curr idx decls,
      isSpread curr = false ->
      requiredFirst o = false \/ isRequiredProp prev = isRequiredProp curr ->
      (isCallbackPropName (getKey src prev) = true ->
       isCallbackPropName (getKey src curr) = false ->
       compareDeclarations o src (Some prev) curr idx decls
       = Ok (Some prev, [{| rnode := prev; message := callbackMessage |}]))
      /\ (isCallbackPropName (getKey src prev) = false ->
          isCallbackPropName (getKey src curr) = true ->
          compareDeclarations o src (Some prev) curr idx decls
          = Ok (Some curr, [])))
  /\ checkSorted o src
       (Some [SortExamples.onClick; SortExamples.value; SortExamples.onHover])
     = Ok [{| rnode := SortExamples.onClick; message := callbackMessage |}].
Proof.
  intros CL. split.
  - intros prev curr idx decls Sp [RF|RQ]; split; intros P C.
    + layers.
    + layers.
    + layers. destruct (isRequiredProp curr); layers.
    + layers. destruct (isRequiredProp curr); layers.
  - destruct o as [rf cl ic ns sh]. simpl in CL. subst cl.
    destruct rf, ic, ns; reflexivity.
Qed.

Lemma callbacksLast_layer_witness :
  compareDeclarations
    {| requiredFirst := false; callbacksLast := true; ignoreCase := false;
       noSortAlphabetically := false; sortShapeProp := false |}
    "" (Some SortExamples.onClick) SortExamples.value 1
    [SortExamples.onClick; SortExamples.value; SortExamples.onHover]
  = Ok (Some SortExamples.onClick,
        [{| rnode := SortExamples.onClick; message := callbackMessage |}]).
Proof.
  refine (proj1 (proj1 (callbacksLast_layer
            {| requiredFirst := false; callbacksLast := true; ignoreCase := false;
               noSortAlphabetically := false; sortShapeProp := false |} "" _)
            SortExamples.onClick SortExamples.value 1
            [SortExamples.onClick; SortExamples.value; SortExamples.onHover] _ _) _ _);
    try reflexivity.
  left. reflexivity.
Defined.

Lemma compareDeclarations_required_drop o src prev curr idx decls :
  requiredFirst o = true -> isSpread curr = false ->
  isRequiredProp prev = true -> isRequiredProp curr = false ->
  compareDeclarations o src (Some prev) curr idx decls = Ok (Some curr, []).
Proof. intros RF Sp P C. layers. Qed.

Lemma compareDeclarations_required_report o src prev curr idx decls :
  requiredFirst o = true ->
  isRequiredProp prev = false -> isRequiredProp curr = true ->
  compareDeclarations o src (Some prev) curr idx decls
  = Ok (Some curr, [{| rnode := curr; message := requiredMessage |}]).
Proof.
  intros RF P C.
  assert (Sp : isSpread curr = false).
  { destruct (isSpread curr) eqn:Sp; [|reflexivity].
    apply spread_not_required in Sp. congruence. }
  layers.
Qed.

(** What the two later layers can make of a pair. *)
Lemma compareDeclarations_later_layers o src prev curr idx decls :
  isSpread curr = false ->
  requiredFirst o = false \/ isRequiredProp prev = isRequiredProp curr ->
  compareDeclarations o src (Some prev) curr idx decls = Ok (Some curr, [])
  \/ compareDeclarations o src (Some prev) curr idx decls
     = Ok (Some prev, [{| rnode := prev; message := callbackMessage |}])
  \/ compareDeclarations o src (Some prev) curr idx decls
     = Ok (Some prev, [{| rnode := curr; message := alphabeticalMessage |}]).
Proof.
  intros Sp H. unfold compareDeclarations. rewrite Sp.
  assert (E1 : requiredFirst o && (isRequiredProp prev && negb (isRequiredProp curr)) = false).
  { destruct H as [->| ->]; [reflexivity|].
    destruct (isRequiredProp curr); now rewrite ?andb_false_r. }
  assert (E2 : requiredFirst o && (negb (isRequiredProp prev) && isRequiredProp curr) = false).
  { destruct H as [->| ->]; [reflexivity|].
    destruct (isRequiredProp curr); now rewrite ?andb_false_r. }
  rewrite E1, E2.
  repeat match goal with
         | |- context [if ?b then _ else _] => destruct b
         end; auto.
Qed.

(** The required members that follow an optional one are the ones
    reported with the required message, in order. *)
Lemma required_reports o src :
  requiredFirst o = true ->
  forall rest done acc before,
    match rest with
    | [] => True
    | c :: _ =>
        match before with
        | Some p =>
            if isSpread p then acc = Some c
            else exists a, acc = Some a /\ isRequiredProp a = isRequiredProp p
        | None => acc = Some c
        end
    end ->
    exists acc' rs,
      reduceFrom o src (done ++ rest) (List.length done) rest acc = Ok (acc', rs)
      /\ map rnode (filter isRequiredReport rs) = requiredAfterOptional before rest.
Proof.
  intros RF. induction rest as [|c rest IH]; intros done acc before Inv.
  - simpl. eauto.
  - rewrite reduceFrom_cons.
    assert (N : nth_error (done ++ c :: rest) (List.length done + 1) = hd_error rest).
    { rewrite nth_error_app2 by lia.
      replace (List.length done + 1 - List.length done) with 1 by lia.
      destruct rest; reflexivity. }
    assert (D : (done ++ c :: rest) = (done ++ [c]) ++ rest) by now rewrite <- app_assoc.
    assert (L : S (List.length done) = List.length (done ++ [c]))
      by (rewrite length_app; simpl; lia).
    destruct (isSpread c) eqn:Sp.
    + rewrite compareDeclarations_spread, N by assumption. simpl.
      destruct (IH (done ++ [c]) (hd_error rest) (Some c)) as (a & rs & E & F).
      { destruct rest; [exact I|]. now rewrite Sp. }
      rewrite D, L, E. simpl. exists a, rs. split; [reflexivity|].
      destruct before as [p|]; simpl;
        rewrite F, ?(spread_not_required c Sp), ?andb_false_r; reflexivity.
    + assert (Next : forall x,
                isRequiredProp x = isRequiredProp c ->
                exists acc' rs,
                  reduceFrom o src (done ++ c :: rest) (S (List.length done)) rest (Some x)
                  = Ok (acc', rs)
                  /\ map rnode (filter isRequiredReport rs)
                     = requiredAfterOptional (Some c) rest).
      { intros x Hx.
        destruct (IH (done ++ [c]) (Some x) (Some c)) as (a & rs & E & F).
        { destruct rest; [exact I|]. rewrite Sp. eauto. }
        rewrite D, L, E. eauto. }
      assert (Self : acc = Some c ->
                exists acc' rs,
                  (r <- compareDeclarations o src acc c (List.length done) (done ++ c :: rest) ;;
                   r' <- reduceFrom o src (done ++ c :: rest) (S (List.length done)) rest (fst r) ;;
                   Ok (fst r', snd r ++ snd r')) = Ok (acc', rs)
                  /\ map rnode (filter isRequiredReport rs)
                     = requiredAfterOptional (Some c) rest).
      { intros ->. rewrite compareDeclarations_self by assumption. simpl.
        destruct (Next c eq_refl) as (a & rs & E & F). rewrite E. simpl. eauto. }
      destruct before as [p|]; simpl in Inv |- *.
      * revert Inv. destruct (isSpread p) eqn:Spp; simpl; intros Inv.
        { now apply Self. }
        destruct Inv as (a & -> & Ra). rewrite <- Ra.
        destruct (isRequiredProp a) eqn:Rp, (isRequiredProp c) eqn:Rc; simpl.
        -- destruct (compareDeclarations_later_layers o src a c (List.length done)
                       (done ++ c :: rest) Sp) as [C|[C|C]];
             [right; congruence| | |]; rewrite C; simpl.
           ++ destruct (Next c) as (a' & rs & E & F); [congruence|].
              rewrite E. simpl. eauto.
           ++ destruct (Next a) as (a' & rs & E & F); [congruence|].
              rewrite E. simpl. eauto.
           ++ destruct (Next a) as (a' & rs & E & F); [congruence|].
              rewrite E. simpl. eauto.
        -- rewrite compareDeclarations_required_drop by assumption. simpl.
           destruct (Next c) as (a' & rs & E & F); [congruence|].
           rewrite E. simpl. eauto.
        -- rewrite compareDeclarations_required_report by assumption. simpl.
           destruct (Next c) as (a' & rs & E & F); [congruence|].
           rewrite E. simpl. do 2 eexists. split; [reflexivity|].
           simpl. now rewrite F.
        -- destruct (compareDeclarations_later_layers o src a c (List.length done)
                       (done ++ c :: rest) Sp) as [C|[C|C]];
             [right; congruence| | |]; rewrite C; simpl.
           ++ destruct (Next c) as (a' & rs & E & F); [congruence|].
              rewrite E. simpl. eauto.
           ++ destruct (Next a) as (a' & rs & E & F); [congruence|].
              rewrite E. simpl. eauto.
           ++ destruct (Next a) as (a' & rs & E & F); [congruence|].
              rewrite E. simpl. eauto.
      * now apply Self.
Qed.

(** A report with the required message comes from the first layer
    alone. *)
Lemma required_report_inv o src prev curr idx decls acc rs r :
  compareDeclarations o src (Some prev) curr idx decls = Ok (acc, rs) ->
  In r rs -> message r = requiredMessage ->
  isRequiredProp prev = false /\ isRequiredProp curr = true /\ rnode r = curr.
Proof.
  unfold compareDeclarations. intros H I M.
  destruct (isSpread curr).
  { injection H as _ <-. destruct I. }
  repeat match type of H with
         | (if ?b then _ else _) = _ => destruct b eqn:?
         end;
    injection H as <- <-; simpl in I;
    try destruct I as [<-|[]]; try destruct I; try discriminate M.
  match goal with
  | A : _ && _ = true |- _ =>
      apply andb_prop in A; destruct A as [_ A];
      apply andb_prop in A; destruct A as [A1 A2]
  end.
  repeat split; [now destruct (isRequiredProp prev)|assumption].
Qed.

(** C4. With [requiredFirst] set, a member that is not required followed
    by a required one is reported on the later member, with the required
    message, and the later member becomes the accumulator; a required
    member followed by one that is not is taken without a report and
    without an alphabetical comparison, and becomes the accumulator; no
    other pair is reported with that message; and over a whole list the
    members reported with it are exactly the required members that come
    right after a member that is not required. *)
Theorem requiredFirst_layer (o : configuration) (src : string) :
  requiredFirst o = true ->
  (forall prev curr idx decls,
      isRequiredProp prev = false -> isRequiredProp curr = true ->
      compareDeclarations o src (Some prev) curr idx decls
      = Ok (Some curr, [{| rnode := curr; message := requiredMessage |}]))
  /\ (forall prev curr idx decls,
         isSpread curr = false ->
         isRequiredProp prev = true -> isRequiredProp curr = false ->
         compareDeclarations o src (Some prev) curr idx decls = Ok (Some curr, []))
  /\ (forall prev curr idx decls acc rs r,
         compareDeclarations o src (Some prev) curr idx decls = Ok (acc, rs) ->
         In r rs -> message r = requiredMessage ->
         isRequiredProp prev = false /\ isRequiredProp curr = true /\ rnode r = curr)
  /\ (forall decls,
         exists rs,
           checkSorted o src (Some decls) = Ok rs
           /\ map rnode (filter isRequiredReport rs) = requiredAfterOptional None decls).
Proof.
  intros RF. split; [|split; [|split]].
  - intros. now apply compareDeclarations_required_report.
  - intros. now apply compareDeclarations_required_drop.
  - apply required_report_inv.
  - intros decls.
    destruct (required_reports o src RF decls [] (nth_error decls 0) None)
      as (a & rs & E & F).
    { destruct decls; [exact I|reflexivity]. }
    simpl in E. simpl. rewrite E. simpl. eauto.
Qed.

Lemma requiredFirst_layer_witness :
  compareDeclarations
    {| requiredFirst := true; callbacksLast := false; ignoreCase := false;
       noSortAlphabetically := false; sortShapeProp := false |}
    "" (Some SortExamples.b_optional) SortExamples.c_required 2
    [SortExamples.a_required; SortExamples.b_optional; SortExamples.c_required]
  = Ok (Some SortExamples.c_required,
        [{| rnode := SortExamples.c_required; message := requiredMessage |}]).
Proof.
  refine (proj1 (requiredFirst_layer
            {| requiredFirst := true; callbacksLast := false; ignoreCase := false;
               noSortAlphabetically := false; sortShapeProp := false |} "" _)
            SortExamples.b_optional SortExamples.c_required 2 _ _ _);
    reflexivity.
Defined.

(** C5, as the code has it. For [a (required), b (not required),
    c (required)] with [requiredFirst] set the reports are exactly one:
    the required message, on [c]. *)
Theorem requiredFirst_example (o : configuration) (src : string) :
  requiredFirst o = true ->
  checkSorted o src
    (Some [SortExamples.a_required; SortExamples.b_optional; SortExamples.c_required])
  = Ok [{| rnode := SortExamples.c_required; message := requiredMessage |}].
Proof.
  intros RF. destruct o as [rf cl ic ns sh]. simpl in RF. subst rf.
  destruct cl, ic, ns; reflexivity.
Qed.

Lemma requiredFirst_example_witness :
  checkSorted
    {| requiredFirst := true; callbacksLast := false; ignoreCase := false;
       noSortAlphabetically := false; sortShapeProp := false |} ""
    (Some [SortExamples.a_required; SortExamples.b_optional; SortExamples.c_required])
  = Ok [{| rnode := SortExamples.c_required; message := requiredMessage |}].
Proof.
  apply (requiredFirst_example
           {| requiredFirst := true; callbacksLast := false; ignoreCase := false;
              noSortAlphabetically := false; sortShapeProp := false |} "").
  reflexivity.
Defined.

(** C5, as stated, fails: no report is made on [b]. *)
Lemma requiredFirst_example_not_on_b :
  exists rs,
    checkSorted
      {| requiredFirst := true; callbacksLast := false; ignoreCase := false;
         noSortAlphabetically := false; sortShapeProp := false |} ""
      (Some [SortExamples.a_required; SortExamples.b_optional; SortExamples.c_required])
    = Ok rs
    /\ ~ In SortExamples.b_optional (map rnode rs).
Proof.
  eexists. split; [reflexivity|].
  simpl. intros [H|[]]. discriminate H.
Qed.

(** What follows a spread is compared as a list of its own. *)
Lemma reduceFrom_after_spread o src pre s post acc :
  isSpread s = true ->
  reduceFrom o src (pre ++ s :: post) (List.length pre) (s :: post) acc
  = reduceFrom o src post 0 post (nth_error post 0).
Proof.
  intros Sp. rewrite reduceFrom_cons, compareDeclarations_spread by assumption.
  cbn [bind fst snd app].
  assert (N : nth_error (pre ++ s :: post) (List.length pre + 1) = nth_error post 0).
  { rewrite nth_error_app2 by lia.
    now replace (List.length pre + 1 - List.length pre) with 1 by lia. }
  rewrite N.
  rewrite (reduceFrom_ext o src post (pre ++ s :: post) (S (List.length pre)) post 0).
  - now destruct (reduceFrom o src post 0 post (nth_error post 0)) as [[a r]|].
  - intros k Hk. rewrite nth_error_app2 by lia.
    now replace (S (List.length pre) + S k - List.length pre) with (S (S k)) by lia.
Qed.

Lemma reduceFrom_before_spread o src pre tail :
  reportsOf (reduceFrom o src (pre ++ tail) 0 pre (nth_error (pre ++ tail) 0))
  = reportsOf (reduceFrom o src pre 0 pre (nth_error pre 0)).
Proof.
  destruct pre as [|p pre]; [reflexivity|].
  apply reduceFrom_reports_ext.
  intros k Hk. simpl. apply nth_error_app1. simpl in Hk. lia.
Qed.

(** C7. A spread is compared with nothing and makes no report, whatever
    the accumulator; the member after it becomes the accumulator; and the
    reports on a list with a spread in it are those on the part before
    the spread followed by those on the part after it, each checked as a
    list of its own. For [b, ...rest, a] there is no report, where
    [b, a] has one. *)
Theorem spread_resets_chain (o : configuration) (src : string) :
  (forall prev curr idx decls,
      isSpread curr = true ->
      compareDeclarations o src prev curr idx decls = Ok (nth_error decls (idx + 1), []))
  /\ (forall pre s post,
         isSpread s = true ->
         exists r1 r2,
           checkSorted o src (Some pre) = Ok r1
           /\ checkSorted o src (Some post) = Ok r2
           /\ checkSorted o src (Some (pre ++ s :: post)) = Ok (r1 ++ r2))
  /\ checkSorted o src (Some [SortExamples.b; SortExamples.rest; SortExamples.a]) = Ok []
  /\ checkSorted SortExamples.defaults src (Some [SortExamples.b; SortExamples.a])
     = Ok [{| rnode := SortExamples.a; message := alphabeticalMessage |}].
Proof.
  split; [|split; [|split]].
  - intros. now apply compareDeclarations_spread.
  - intros pre s post Sp.
    destruct (checkSorted_total o src (Some pre)) as (r1 & E1).
    destruct (checkSorted_total o src (Some post)) as (r2 & E2).
    exists r1, r2. repeat split; try assumption.
    unfold checkSorted in *. fold (reportsOf (reduceFrom o src pre 0 pre (nth_error pre 0))) in E1.
    rewrite <- (reduceFrom_before_spread o src pre (s :: post)) in E1.
    rewrite reduceFrom_app, Nat.add_0_l.
    unfold reportsOf in E1.
    destruct (reduceFrom o src (pre ++ s :: post) 0 pre (nth_error (pre ++ s :: post) 0))
      as [[a1 q1]|]; simpl in E1; [|discriminate E1].
    injection E1 as ->. cbn [bind fst snd].
    rewrite reduceFrom_after_spread by assumption.
    destruct (reduceFrom o src post 0 post (nth_error post 0)) as [[a2 q2]|];
      simpl in E2; [|discriminate E2].
    injection E2 as ->. reflexivity.
  - destruct o as [rf cl ic ns sh]. destruct rf, cl, ic, ns; reflexivity.
  - reflexivity.
Qed.

Lemma spread_resets_chain_witness :
  exists r1 r2,
    checkSorted SortExamples.defaults "" (Some [SortExamples.b]) = Ok r1
    /\ checkSorted SortExamples.defaults "" (Some [SortExamples.a]) = Ok r2
    /\ checkSorted SortExamples.defaults ""
         (Some ([SortExamples.b] ++ SortExamples.rest :: [SortExamples.a]))
       = Ok (r1 ++ r2).
Proof.
  apply (proj1 (proj2 (spread_resets_chain SortExamples.defaults ""))).
  reflexivity.
Defined.




(** C10, as the code has it. [stripQuotes] takes off a single quote that
    starts the string and, apart from that, a single quote that ends it:
    a pair around a string is removed, a quote at one end only is removed
    as well, and a string with a quote at neither end is returned as it
    is. [getKeyValue] applies it to the first token of an
    [ObjectTypeProperty] that has no variance sign. *)
Theorem stripQuotes_each_end :
  (forall m, stripQuotes (String quote (m ++ String quote EmptyString)%string) = m)
  /\ (forall t, (forall u, t <> (u ++ String quote EmptyString)%string) ->
                stripQuotes (String quote t) = t)
  /\ (forall t, (forall u, t <> String quote u) ->
                stripQuotes (t ++ String quote EmptyString)%string = t)
  /\ (forall s, (forall u, s <> String quote u) ->
                (forall u, s <> (u ++ String quote EmptyString)%string) ->
                stripQuotes s = s)
  /\ (forall first tokens,
         first <> "+" -> first <> "-" ->
         KeyValue.getKeyValue (KeyValue.ObjectTypeProperty (first :: tokens))
         = Ok (Some (stripQuotes first))).
Proof.
  split; [|split; [|split; [|split]]].
  - intros m. simpl. apply dropTrailingQuote_snoc.
  - intros t H. simpl. now apply dropTrailingQuote_keeps.
  - intros [|c t] H.
    + reflexivity.
    + simpl (_ ++ _)%string. unfold stripQuotes.
      destruct (Ascii.eqb_spec c quote) as [->|N].
      * now contradiction (H t).
      * apply (dropTrailingQuote_snoc (String c t)).
  - intros [|c s] H1 H2.
    + reflexivity.
    + unfold stripQuotes.
      destruct (Ascii.eqb_spec c quote) as [->|N].
      * now contradiction (H1 s).
      * now apply dropTrailingQuote_keeps.
  - intros first tokens P M. simpl.
    apply String.eqb_neq in P, M. now rewrite P, M.
Qed.

Lemma stripQuotes_each_end_witness :
  stripQuotes "'abc" = "abc".
Proof.
  apply (proj1 (proj2 stripQuotes_each_end) "abc").
  intros [|c1 [|c2 [|c3 [|c4 u]]]]; discriminate.
Defined.

(** C10, as stated, fails: ['abc] has a quote at its start and none at
    its end, and comes back without the quote. *)
Lemma stripQuotes_lone_quote :
  (forall m, "'abc" <> String quote (m ++ String quote EmptyString)%string)
  /\ stripQuotes "'abc" = "abc"
  /\ stripQuotes "'abc" <> "'abc".
Proof.
  repeat split.
  - intros m H. injection H as H.
    destruct m as [|c1 [|c2 [|c3 [|c4 m]]]]; discriminate H.
  - discriminate.
Qed.

(** ** [findJSXReturnStatement] *)

Import Ast AstReading.

Lemma truthy_app (l1 l2 : list JSXReturn.element) :
  JSXReturn.truthy (l1 ++ l2) = JSXReturn.truthy l1 ++ JSXReturn.truthy l2.
Proof.
  induction l1 as [|[n|] l1 IH]; simpl; [reflexivity| |assumption].
  now rewrite IH.
Qed.

Lemma truthy_flatMapId (rs : list JSXReturn.reduced) :
  JSXReturn.truthy (JSXReturn.flatMapId rs) = flat_map nodesOf rs.
Proof.
  induction rs as [|r rs IH]; simpl; [reflexivity|].
  now rewrite truthy_app, IH.
Qed.

Lemma map_id_truthy (l : list Ast.node) :
  JSXReturn.truthy (map Some l) = l.
Proof. induction l as [|x l IH]; simpl; [reflexivity|now rewrite IH]. Qed.

Lemma loopNodes_switch node id parent cases :
  JSXReturn.loopNodes node (SwitchStatement id parent cases)
  = JSXReturn.RArray (flat_map (caseContribution node) cases).
Proof.
  simpl. f_equal.
  induction cases as [|c cases IH]; simpl; [reflexivity|].
  rewrite truthy_app, IH. f_equal.
  destruct c as [[|x l]|]; simpl; try reflexivity.
  rewrite truthy_app. f_equal.
  rewrite truthy_flatMapId. now rewrite flat_map_concat_map, map_map, <- flat_map_concat_map.
Qed.

(** C8. The reduction of a switch is, case after case, what the case's
    own statements reduce to: a case with statements adds the nodes of
    the reductions of those statements and nothing else, a case with an
    empty or a missing [consequent] adds nothing, and adding or removing
    such a case leaves the reduction as it was. For
    [switch (x) { case 1: return 1; case 2: }] in [f] the reduction is
    the one return of the first case. *)
Theorem switch_cases_apart (node id : nat) (parent : parentRef) :
  (forall cases,
      JSXReturn.loopNodes node (SwitchStatement id parent cases)
      = JSXReturn.RArray (flat_map (caseContribution node) cases))
  /\ (forall consequent n,
         In n (caseContribution node (Some consequent)) <->
         exists statement,
           In statement consequent
           /\ In n (nodesOf (JSXReturn.loopNodes node statement)))
  /\ caseContribution node (Some []) = []
  /\ caseContribution node None = []
  /\ (forall before after,
         JSXReturn.loopNodes node (SwitchStatement id parent (before ++ Some [] :: after))
         = JSXReturn.loopNodes node (SwitchStatement id parent (before ++ after))
         /\ JSXReturn.loopNodes node (SwitchStatement id parent (before ++ None :: after))
            = JSXReturn.loopNodes node (SwitchStatement id parent (before ++ after)))
  /\ JSXReturn.loopNodes (nodeId AstExamples.Cases.f) AstExamples.Cases.switch
     = JSXReturn.RArray [AstExamples.Cases.returnOne]
  /\ JSXReturn.findJSXReturnStatement AstExamples.Cases.f AstExamples.Cases.scopes
     = Ok (JSXReturn.Found [Some AstExamples.Cases.returnOne]).
Proof.
  split; [|split; [|split; [|split; [|split; [|split]]]]].
  - intros cases. apply loopNodes_switch.
  - intros consequent n. unfold caseContribution. apply in_flat_map.
  - reflexivity.
  - reflexivity.
  - intros before after. rewrite !loopNodes_switch, !flat_map_app. simpl. auto.
  - reflexivity.
  - reflexivity.
Qed.

(** C1: the code departs from it. For [function f() {}], whose scopes
    yield no candidate, the result is the empty array and not [false];
    and no input makes the result [false]. *)
Theorem findJSXReturnStatement_never_false :
  JSXReturn.findJSXReturnStatement AstExamples.Empty.f AstExamples.Empty.scopes
  = Ok (JSXReturn.Found [])
  /\ (forall node scopes,
         JSXReturn.findJSXReturnStatement node scopes <> Ok JSXReturn.NotFound).
Proof.
  split; [reflexivity|].
  intros node scopes. unfold JSXReturn.findJSXReturnStatement.
  destruct (isFunctionType node).
  - destruct (JSXReturn.mapScopes scopes); simpl; discriminate.
  - simpl. discriminate.
Qed.

(** C2: the code departs from it. In
    [function f() { function* g() { yield 1; } }] the [yield] belongs to
    [g]: its chain of parents comes to [g] before it comes to [f], and
    [loopNodes] turns it down when it is handed the [yield] itself. Handed
    the statement [yield 1;] it gives the [yield] back unchecked, so the
    result for [f] holds it. *)
Theorem findJSXReturnStatement_inner_yield :
  JSXReturn.findJSXReturnStatement AstExamples.Generator.f AstExamples.Generator.scopes
  = Ok (JSXReturn.Found [Some AstExamples.Generator.yieldOne])
  /\ within (nodeId AstExamples.Generator.f) (refTo AstExamples.Generator.yieldOne) = false
  /\ within (nodeId AstExamples.Generator.g) (refTo AstExamples.Generator.yieldOne) = true
  /\ JSXReturn.loopNodes (nodeId AstExamples.Generator.f) AstExamples.Generator.yieldOne
     = JSXReturn.RFalse
  /\ JSXReturn.loopNodes (nodeId AstExamples.Generator.f) AstExamples.Generator.statement
     = JSXReturn.RNode AstExamples.Generator.yieldOne.
Proof. repeat split. Qed.

(** What the walk up the parents lets through is within the target. *)
Lemma walk_within node bnode chain r :
  JSXReturn.walk node bnode chain = Some r ->
  r = JSXReturn.RFalse \/ (r = JSXReturn.RNode bnode /\ within node chain = true).
Proof.
  induction chain as [|id type chain IH]; simpl; [discriminate|].
  destruct (id =? node)%nat; rewrite ?andb_false_r, ?andb_true_r; simpl.
  - intros [= <-]. auto.
  - destruct (functionTypeName type); [intros [= <-]; auto|exact IH].
Qed.

Lemma boundary_within node bnode r :
  JSXReturn.boundary node bnode = Some r ->
  r = JSXReturn.RFalse
  \/ (r = JSXReturn.RNode bnode /\ within node (refTo bnode) = true).
Proof.
  unfold JSXReturn.boundary.
  destruct (_ || _); [apply walk_within|discriminate].
Qed.

Lemma loopNodes_boundary node bnode r :
  JSXReturn.boundary node bnode = Some r -> JSXReturn.loopNodes node bnode = r.
Proof.
  intros E. destruct bnode; cbn [JSXReturn.loopNodes]; now rewrite E.
Qed.

(** Every node that [loopNodes] hands back is within the target, or is
    the expression of an expression statement. *)
Lemma loopNodes_within_or_expression node :
  forall bnode n,
    In n (nodesOf (JSXReturn.loopNodes node bnode)) ->
    within node (refTo n) = true \/ In n (statementExpressions bnode).
Proof.
  assert (B : forall bnode n,
             (JSXReturn.boundary node bnode = None ->
              In n (nodesOf (JSXReturn.loopNodes node bnode)) ->
              within node (refTo n) = true \/ In n (statementExpressions bnode)) ->
             In n (nodesOf (JSXReturn.loopNodes node bnode)) ->
             within node (refTo n) = true \/ In n (statementExpressions bnode)).
  { intros bnode n H I.
    destruct (JSXReturn.boundary node bnode) as [r|] eqn:E; [|now apply H].
    rewrite (loopNodes_boundary node bnode r E) in I.
    destruct (boundary_within node bnode r E) as [->|[-> W]].
    - destruct I.
    - destruct I as [<-|[]]. now left. }
  intros bnode. induction bnode using node_induction; intros n; apply B; intros E I;
    cbn [JSXReturn.loopNodes] in I; rewrite E in I.
  - destruct I.
  - destruct I.
  - destruct I.
  - (* ExpressionStatement *)
    destruct I as [<-|[]]. right. simpl. auto.
  - (* IfStatement *)
    destruct alternate as [a|].
    + unfold nodesOf in I. simpl in I. rewrite truthy_app, map_id_truthy in I.
      simpl. rewrite in_app_iff.
      apply in_app_or in I. destruct I as [I|I].
      * destruct (isType "BlockStatement" bnode); simpl in I; [destruct I|].
        destruct (IHbnode n I); auto.
      * destruct (isType "BlockStatement" a); simpl in I; [destruct I|].
        destruct (H n I); auto.
    + destruct (isType "BlockStatement" bnode); simpl in I; [destruct I|].
      simpl. rewrite app_nil_r. now apply IHbnode.
  - (* LoopStatement *)
    destruct (isType "BlockStatement" bnode); simpl in I; [destruct I|].
    simpl. now apply IHbnode.
  - (* SwitchStatement *)
    assert (L := loopNodes_switch node id parent cases).
    cbn [JSXReturn.loopNodes] in L. rewrite E in L. rewrite L in I.
    unfold nodesOf in I. simpl in I. rewrite map_id_truthy in I.
    apply in_flat_map in I. destruct I as (c & Ic & I).
    rewrite Forall_forall in H. specialize (H c Ic).
    destruct c as [l|]; [|destruct I].
    simpl in I. apply in_flat_map in I. destruct I as (s & Is & I).
    simpl in H. rewrite Forall_forall in H.
    destruct (H s Is n I) as [W|X]; [now left|right].
    simpl. apply in_flat_map. exists (Some l). split; [assumption|].
    apply in_flat_map. eauto.
  - destruct I.
  - destruct I.
Qed.

(** ** [findReturnStatement] *)

Lemma visit_switch_last id parent cases c :
  TrailingReturn.visit (SwitchStatement id parent (cases ++ [c]))
  = Some (match c with
          | Some consequent => TrailingReturn.loopNodes consequent
          | None => TypeError
          end).
Proof.
  induction cases as [|c' cases IH].
  - destruct c; reflexivity.
  - simpl in IH |- *. destruct (cases ++ [c]) eqn:E.
    + now destruct cases.
    + exact IH.
Qed.

Lemma scan_app l1 l2 :
  TrailingReturn.scan (l1 ++ l2)
  = match TrailingReturn.scan l2 with
    | Some r => Some r
    | None => TrailingReturn.scan l1
    end.
Proof.
  induction l1 as [|x l1 IH]; simpl.
  - now destruct (TrailingReturn.scan l2).
  - rewrite IH. now destruct (TrailingReturn.scan l2).
Qed.






(** A switch without a case is stepped over: the scan goes on with the
    statements before it. *)
Lemma loopNodes_empty_switch before id parent :
  TrailingReturn.loopNodes (before ++ [SwitchStatement id parent []])
  = TrailingReturn.loopNodes before.
Proof. unfold TrailingReturn.loopNodes. now rewrite scan_app. Qed.



(** * Further properties *)

(** ** Whole runs of [checkSorted] *)

Import SortOrder.

Lemma reduceFrom_sound o src rest :
  forall done acc,
    match rest with
    | [] => True
    | c :: _ =>
        isSpread c = true
        \/ exists a, acc = Some a /\ In a (done ++ rest) /\ isSpread a = false
    end ->
    exists acc' rs,
      reduceFrom o src (done ++ rest) (List.length done) rest acc = Ok (acc', rs)
      /\ Forall (soundReport (done ++ rest)) rs
      /\ List.length rs <= List.length rest.
Proof.
  induction rest as [|c rest IH]; intros done acc R.
  - simpl. exists acc, []. split; [reflexivity|split; [apply Forall_nil|simpl; lia]].
  - rewrite reduceFrom_cons.
    assert (N : nth_error (done ++ c :: rest) (List.length done + 1) = hd_error rest).
    { rewrite nth_error_app2 by lia.
      replace (List.length done + 1 - List.length done) with 1 by lia.
      destruct rest; reflexivity. }
    assert (D : (done ++ c :: rest) = (done ++ [c]) ++ rest) by now rewrite <- app_assoc.
    assert (L : S (List.length done) = List.length (done ++ [c]))
      by (rewrite length_app; simpl; lia).
    assert (Next : forall x,
               In x (done ++ c :: rest) -> isSpread x = false ->
               exists acc' rs,
                 reduceFrom o src (done ++ c :: rest) (S (List.length done)) rest (Some x)
                 = Ok (acc', rs)
                 /\ Forall (soundReport (done ++ c :: rest)) rs
                 /\ List.length rs <= List.length rest).
    { intros x Ix Sx.
      destruct (IH (done ++ [c]) (Some x)) as (a & rs & E & F & B).
      { destruct rest; [exact I|]. right. exists x. rewrite <- D. auto. }
      rewrite D, L. eauto. }
    assert (Ic : In c (done ++ c :: rest)) by (apply in_or_app; right; now left).
    destruct (isSpread c) eqn:Sp.
    + rewrite compareDeclarations_spread, N by assumption. simpl.
      destruct (IH (done ++ [c]) (hd_error rest)) as (a & rs & E & F & B).
      { destruct rest as [|c' rest']; [exact I|].
        destruct (isSpread c') eqn:Sp'; [now left|right].
        exists c'. repeat split; [|assumption].
        apply in_or_app. right. now left. }
      rewrite D, L, E. simpl. exists a, rs. split; [reflexivity|split; [assumption|simpl; lia]].
    + destruct R as [R|(prev & -> & Ip & Sprev)]; [congruence|].
      destruct (compareDeclarations_cases o src prev c (List.length done)
                  (done ++ c :: rest) Sp) as [E|[E|[E|E]]];
        rewrite E; simpl.
      * destruct (Next c Ic Sp) as (a & rs & E' & F & B).
        rewrite E'. simpl. exists a, rs. split; [reflexivity|split; [assumption|simpl; lia]].
      * destruct (Next c Ic Sp) as (a & rs & E' & F & B).
        rewrite E'. simpl. eexists _, _. split; [reflexivity|split].
        -- constructor; [|assumption]. repeat split; auto. now left.
        -- simpl. lia.
      * destruct (Next prev Ip Sprev) as (a & rs & E' & F & B).
        rewrite E'. simpl. eexists _, _. split; [reflexivity|split].
        -- constructor; [|assumption]. repeat split; auto. right. now left.
        -- simpl. lia.
      * destruct (Next prev Ip Sprev) as (a & rs & E' & F & B).
        rewrite E'. simpl. eexists _, _. split; [reflexivity|split].
        -- constructor; [|assumption]. repeat split; auto. right. now right.
        -- simpl. lia.
Qed.

(** [checkSorted] never throws, and each of its reports is on a member
    of the list that is not a spread and bears one of the three messages
    of the rule. *)
Theorem checkSorted_reports_sound (o : configuration) (src : string)
    (decls : list declaration) :
  exists rs,
    checkSorted o src (Some decls) = Ok rs
    /\ Forall (soundReport decls) rs.
Proof.
  destruct (reduceFrom_sound o src decls [] (nth_error decls 0)) as (a & rs & E & F & _).
  { destruct decls as [|c decls]; [exact I|].
    destruct (isSpread c) eqn:Sp; [now left|right].
    exists c. repeat split; [now left|assumption]. }
  simpl in E, F. simpl. rewrite E. simpl. eauto.
Qed.

(** A list is reported on less often than it has members: each
    comparison makes one report at most, and the first member is
    compared with itself. *)
Theorem checkSorted_reports_bound (o : configuration) (src : string)
    (decls : list declaration) :
  exists rs,
    checkSorted o src (Some decls) = Ok rs
    /\ List.length rs <= List.length decls - 1.
Proof.
  destruct decls as [|c decls].
  - exists []. split; [reflexivity|simpl; lia].
  - unfold checkSorted. rewrite reduceFrom_cons.
    assert (First : exists acc,
               compareDeclarations o src (nth_error (c :: decls) 0) c 0 (c :: decls)
               = Ok (acc, [])
               /\ match decls with
                  | [] => True
                  | c' :: _ =>
                      isSpread c' = true
                      \/ exists a, acc = Some a /\ In a ([c] ++ decls) /\ isSpread a = false
                  end).
    { destruct (isSpread c) eqn:Sp.
      - rewrite compareDeclarations_spread by assumption. eexists. split; [reflexivity|].
        destruct decls as [|c' decls]; [exact I|]. simpl.
        destruct (isSpread c') eqn:Sp'; [now left|right].
        exists c'. repeat split; auto.
      - simpl nth_error. rewrite compareDeclarations_self by assumption.
        eexists. split; [reflexivity|].
        destruct decls as [|c' decls]; [exact I|]. right.
        exists c. repeat split; [now left|assumption]. }
    destruct First as (acc & E & R). rewrite E. simpl.
    destruct (reduceFrom_sound o src decls [c] acc R) as (a & rs & E' & _ & B).
    simpl in E'. rewrite E'. simpl. exists rs. split; [reflexivity|lia].
Qed.

(** *** Lists without a spread *)

Lemma chain_cons {A : Type} (R : A -> A -> Prop) x y l :
  chain R (x :: y :: l) <-> R x y /\ chain R (y :: l).
Proof. reflexivity. Qed.

(** Going from [f] false to [f] true at most once, in order within each
    side, is being two runs. *)
Lemma chain_twoRuns {A : Type} (f : A -> bool) (R : A -> A -> Prop) (l : list A) :
  chain (fun x y => (f x = false /\ f y = true) \/ (f x = f y /\ R x y)) l
  <-> twoRuns f R l.
Proof.
  split.
  - induction l as [|x l IH]; intros C.
    + exists [], []. repeat split; constructor.
    + destruct l as [|y l].
      * destruct (f x) eqn:Fx.
        -- exists [], [x]. repeat split; try constructor; auto.
        -- exists [x], []. repeat split; try constructor; auto.
      * apply chain_cons in C. destruct C as [Rxy C].
        destruct (IH C) as (l1 & l2 & E & F1 & F2 & C1 & C2).
        destruct (f x) eqn:Fx.
        -- assert (Fy : f y = true /\ R x y).
           { destruct Rxy as [[H _]|[H Q]]; [discriminate|]. now rewrite <- H. }
           destruct l1 as [|z l1].
           ++ simpl in E. subst l2. exists [], (x :: y :: l).
              repeat split; try constructor; try assumption. apply Fy.
           ++ simpl in E. injection E as <- _. apply Forall_inv in F1.
              destruct Fy as [Fy _]. congruence.
        -- exists (x :: l1), l2. rewrite E. repeat split; try assumption.
           ++ now constructor.
           ++ destruct l1 as [|z l1]; [exact I|].
              simpl in E. injection E as <- _. apply chain_cons. split; [|assumption].
              apply Forall_inv in F1.
              destruct Rxy as [[_ H]|[_ Q]]; [congruence|assumption].
  - intros (l1 & l2 & -> & F1 & F2 & C1 & C2).
    induction l1 as [|x l1 IH].
    + simpl. clear F1 C1. induction l2 as [|x l2 IH]; [exact I|].
      destruct l2 as [|y l2]; [exact I|].
      apply chain_cons in C2. destruct C2 as [Rxy C2].
      apply chain_cons. split.
      * right. split; [|assumption].
        apply Forall_inv in F2 as Fx. apply Forall_inv_tail in F2.
        apply Forall_inv in F2. congruence.
      * apply IH; [now apply Forall_inv_tail in F2|assumption].
    + apply Forall_inv in F1 as Fx. apply Forall_inv_tail in F1.
      assert (C1' : chain R l1) by (destruct l1; [exact I|apply chain_cons in C1; apply C1]).
      specialize (IH F1 C1').
      destruct l1 as [|y l1].
      * cbn [app] in *. destruct l2 as [|y l2]; [exact I|].
        apply chain_cons. split; [|assumption].
        left. split; [assumption|]. now apply Forall_inv in F2.
      * cbn [app] in *. apply chain_cons. split; [|assumption].
        right. apply chain_cons in C1. destruct C1 as [Rxy _].
        apply Forall_inv in F1. split; [congruence|assumption].
Qed.





Lemma chain_iff {A : Type} (R R' : A -> A -> Prop) (P : A -> Prop) l :
  Forall P l ->
  (forall x y, P x -> P y -> (R x y <-> R' x y)) ->
  chain R l <-> chain R' l.
Proof.
  intros F H. induction l as [|x l IH]; [tauto|].
  destruct l as [|y l]; [simpl; tauto|].
  rewrite !chain_cons.
  apply Forall_inv in F as Px. apply Forall_inv_tail in F.
  apply Forall_inv in F as Py.
  rewrite (H x y Px Py), (IH F). tauto.
Qed.





(** *** The required-first layer on its own *)

Lemma requiredAfterOptional_nil l :
  plain l ->
  forall p,
    isSpread p = false ->
    requiredAfterOptional (Some p) l = []
    <-> chain (fun p c => ~ (isRequiredProp p = false /\ isRequiredProp c = true))
          (p :: l).
Proof.
  induction 1 as [|c l Sp _ IH]; intros p Spp.
  - simpl. tauto.
  - rewrite chain_cons. cbn [requiredAfterOptional]. rewrite Spp.
    destruct (isRequiredProp p) eqn:Rp, (isRequiredProp c) eqn:Rc; cbn [negb andb];
      rewrite ?(IH c Sp); intuition (try discriminate; auto).
Qed.

(** With the required-first layer on, a list without a spread gets no
    report with the required message exactly when it is required members
    followed by members that are not, whatever the other layers report. *)
Theorem checkSorted_required_first (o : configuration) (src : string)
    (decls : list declaration) :
  requiredFirst o = true ->
  plain decls ->
  exists rs,
    checkSorted o src (Some decls) = Ok rs
    /\ (filter SortReduction.isRequiredReport rs = []
        <-> exists required others,
              decls = required ++ others
              /\ Forall (fun d => isRequiredProp d = true) required
              /\ Forall (fun d => isRequiredProp d = false) others).
Proof.
  intros RF Pl.
  destruct (required_reports o src RF decls [] (nth_error decls 0) None)
    as (a & rs & E & F).
  { destruct decls; [exact I|reflexivity]. }
  simpl in E. exists rs. split; [simpl; now rewrite E|].
  assert (N : filter SortReduction.isRequiredReport rs = []
              <-> requiredAfterOptional None decls = []).
  { rewrite <- F. destruct (filter SortReduction.isRequiredReport rs);
      simpl; split; intros H; try reflexivity; discriminate H. }
  rewrite N.
  assert (T : twoRuns (fun d => negb (isRequiredProp d)) (fun _ _ => True) decls
              <-> exists required others,
                    decls = required ++ others
                    /\ Forall (fun d => isRequiredProp d = true) required
                    /\ Forall (fun d => isRequiredProp d = false) others).
  { split; intros (l1 & l2 & H & F1 & F2).
    - exists l1, l2. destruct F2 as (F2 & _). repeat split; try assumption.
      + eapply Forall_impl; [|exact F1]. intros d Hd. now apply negb_false_iff in Hd.
      + eapply Forall_impl; [|exact F2]. intros d Hd. now apply negb_true_iff in Hd.
    - exists l1, l2. repeat split; try assumption.
      + eapply Forall_impl; [|exact F1]. intros d Hd. now rewrite Hd.
      + eapply Forall_impl; [|exact F2]. intros d Hd. now rewrite Hd.
      + clear. induction l1 as [|x [|y l1] IH]; simpl; auto.
      + clear. induction l2 as [|x [|y l2] IH]; simpl; auto. }
  rewrite <- T, <- chain_twoRuns.
  destruct decls as [|c decls]; [simpl; tauto|].
  apply Forall_inv in Pl as Sp. apply Forall_inv_tail in Pl.
  simpl requiredAfterOptional.
  rewrite (requiredAfterOptional_nil decls Pl c Sp).
  apply (chain_iff _ _ (fun d => True)); [now apply Forall_forall|].
  intros p c' _ _. destruct (isRequiredProp p), (isRequiredProp c'); simpl;
    intuition (try discriminate; auto).
Qed.

(** *** Options that switch a layer off *)

Lemma reduceFrom_all_silent o src :
  (forall p c, isSpread c = false -> silent o src p c) ->
  forall rest done acc,
    SortReduction.ready acc rest ->
    exists acc',
      reduceFrom o src (done ++ rest) (List.length done) rest acc = Ok (acc', []).
Proof.
  intros Q. induction rest as [|c rest IH]; intros done acc R.
  - simpl. eauto.
  - rewrite reduceFrom_cons.
    assert (N : nth_error (done ++ c :: rest) (List.length done + 1) = hd_error rest).
    { rewrite nth_error_app2 by lia.
      replace (List.length done + 1 - List.length done) with 1 by lia.
      destruct rest; reflexivity. }
    assert (D : (done ++ c :: rest) = (done ++ [c]) ++ rest) by now rewrite <- app_assoc.
    assert (L : S (List.length done) = List.length (done ++ [c]))
      by (rewrite length_app; simpl; lia).
    destruct (isSpread c) eqn:Sp.
    + rewrite compareDeclarations_spread, N by assumption. simpl.
      destruct (IH (done ++ [c]) (hd_error rest)) as (a & E).
      { destruct rest; simpl; [exact I|right; discriminate]. }
      rewrite D, L, E. simpl. eauto.
    + destruct R as [R|R]; [congruence|].
      destruct acc as [prev|]; [|congruence].
      rewrite (compareDeclarations_context o src (Some prev) c (List.length done)
                 (done ++ c :: rest) 0 [] Sp).
      rewrite (Q prev c Sp). simpl.
      destruct (IH (done ++ [c]) (Some c)) as (a & E).
      { destruct rest; simpl; [exact I|right; discriminate]. }
      rewrite D, L, E. simpl. eauto.
Qed.

(** With the alphabetical layer switched off and the two others not
    switched on, no list is reported on. *)
Theorem checkSorted_layers_off (o : configuration) (src : string)
    (decls : option (list declaration)) :
  requiredFirst o = false -> callbacksLast o = false ->
  noSortAlphabetically o = true ->
  checkSorted o src decls = Ok [].
Proof.
  intros RF CL NS. destruct decls as [decls|]; [|reflexivity].
  destruct (reduceFrom_all_silent o src) with (rest := decls) (done := @nil declaration)
    (acc := nth_error decls 0) as (a & E).
  - intros p c Sp. unfold silent, compareDeclarations. now rewrite Sp, RF, CL, NS.
  - destruct decls; simpl; [exact I|right; discriminate].
  - simpl in E. simpl. now rewrite E.
Qed.

Lemma compareDeclarations_ignoreCase o src b prev curr idx decls :
  noSortAlphabetically o = true ->
  compareDeclarations (withIgnoreCase b o) src prev curr idx decls
  = compareDeclarations o src prev curr idx decls.
Proof.
  intros NS. unfold compareDeclarations. simpl. now rewrite NS.
Qed.

Lemma reduceFrom_ignoreCase o src b whole rest :
  noSortAlphabetically o = true ->
  forall idx acc,
    reduceFrom (withIgnoreCase b o) src whole idx rest acc
    = reduceFrom o src whole idx rest acc.
Proof.
  intros NS. induction rest as [|c rest IH]; intros idx acc; [reflexivity|].
  rewrite !reduceFrom_cons, compareDeclarations_ignoreCase by assumption.
  destruct (compareDeclarations o src acc c idx whole); simpl; [|reflexivity].
  now rewrite IH.
Qed.

(** With the alphabetical layer switched off, [ignoreCase] changes
    nothing: names are tested for being callbacks as they are written. *)
Theorem checkSorted_ignoreCase_unused (o : configuration) (src : string) (b : bool)
    (decls : option (list declaration)) :
  noSortAlphabetically o = true ->
  checkSorted (withIgnoreCase b o) src decls = checkSorted o src decls.
Proof.
  intros NS. destruct decls as [decls|]; [|reflexivity].
  unfold checkSorted. now rewrite reduceFrom_ignoreCase.
Qed.

(** ** [stripQuotes] and [getKeyValue] *)

Lemma dropTrailingQuote_frame (s : string) :
  exists b,
    s = (dropTrailingQuote s ++ b)%string
    /\ (b = EmptyString \/ b = String quote EmptyString).
Proof.
  induction s as [|c s (b & E & B)].
  - exists EmptyString. auto.
  - destruct s as [|d s].
    + simpl. destruct (Ascii.eqb_spec c quote) as [->|N].
      * exists (String quote EmptyString). auto.
      * exists EmptyString. auto.
    + exists b. split; [|assumption].
      change (dropTrailingQuote (String c (String d s)))
        with (String c (dropTrailingQuote (String d s))).
      cbn [append]. f_equal. exact E.
Qed.

Lemma append_length (a b : string) :
  String.length (a ++ b) = String.length a + String.length b.
Proof. induction a as [|c a IH]; simpl; [reflexivity|now rewrite IH]. Qed.

(** [stripQuotes] only ever takes a quote off the start and a quote off
    the end: the string is what it gives back, with a quote or nothing on
    either side, and it gives the string back unchanged exactly when it
    took nothing off. *)
Theorem stripQuotes_frame (s : string) :
  exists a b,
    s = (a ++ stripQuotes s ++ b)%string
    /\ (a = EmptyString \/ a = String quote EmptyString)
    /\ (b = EmptyString \/ b = String quote EmptyString)
    /\ (stripQuotes s = s <-> a = EmptyString /\ b = EmptyString).
Proof.
  assert (F : exists a b,
             s = (a ++ stripQuotes s ++ b)%string
             /\ (a = EmptyString \/ a = String quote EmptyString)
             /\ (b = EmptyString \/ b = String quote EmptyString)).
  { destruct s as [|c s].
    - exists EmptyString, EmptyString. auto.
    - unfold stripQuotes. destruct (Ascii.eqb_spec c quote) as [->|N].
      + destruct (dropTrailingQuote_frame s) as (b & E & B).
        exists (String quote EmptyString), b. simpl. rewrite <- E. auto.
      + destruct (dropTrailingQuote_frame (String c s)) as (b & E & B).
        exists EmptyString, b. simpl (EmptyString ++ _)%string. auto. }
  destruct F as (a & b & E & A & B). exists a, b. repeat split; try assumption.
  - assert (L := f_equal String.length E).
    rewrite !append_length in L. rewrite H in L.
    destruct A as [->| ->]; [reflexivity|simpl in L; lia].
  - assert (L := f_equal String.length E).
    rewrite !append_length in L. rewrite H in L.
    destruct B as [->| ->]; [reflexivity|simpl in L; lia].
  - intros [-> ->]. simpl in E. rewrite E at 2.
    clear. induction (stripQuotes s) as [|c t IH]; simpl; [reflexivity|now rewrite <- IH].
Qed.

(** The name of an [ObjectTypeProperty] is read off its first tokens: a
    quoted key gives the name between the quotes, the same name as the
    bare key gives; after a variance sign the next token is given as it
    is, quotes and all; and a node with too few tokens throws. *)
Theorem getKeyValue_tokens :
  (forall name tokens,
      KeyValue.getKeyValue
        (KeyValue.ObjectTypeProperty
           (String quote (name ++ String quote EmptyString)%string :: tokens))
      = Ok (Some name))
  /\ (forall name tokens,
         name <> "+" -> name <> "-" ->
         (forall u, name <> String quote u) ->
         (forall u, name <> (u ++ String quote EmptyString)%string) ->
         KeyValue.getKeyValue (KeyValue.ObjectTypeProperty (name :: tokens))
         = Ok (Some name))
  /\ (forall sign key tokens,
         sign = "+" \/ sign = "-" ->
         KeyValue.getKeyValue (KeyValue.ObjectTypeProperty (sign :: key :: tokens))
         = Ok (Some key))
  /\ KeyValue.getKeyValue (KeyValue.ObjectTypeProperty []) = TypeError
  /\ (forall sign,
         sign = "+" \/ sign = "-" ->
         KeyValue.getKeyValue (KeyValue.ObjectTypeProperty [sign]) = TypeError).
Proof.
  split; [|split; [|split; [|split]]].
  - intros name tokens. simpl. f_equal. f_equal. apply dropTrailingQuote_snoc.
  - intros name tokens P M Q1 Q2. simpl.
    apply String.eqb_neq in P, M. rewrite P, M. simpl. do 2 f_equal.
    destruct name as [|c name]; [reflexivity|]. unfold stripQuotes.
    destruct (Ascii.eqb_spec c quote) as [->|N].
    + now contradiction (Q1 name).
    + now apply dropTrailingQuote_keeps.
  - intros sign key tokens [-> | ->]; reflexivity.
  - reflexivity.
  - intros sign [-> | ->]; reflexivity.
Qed.

(** ** The node tests *)

Import AstTests.

(** [isFunctionType] holds of exactly the nodes of which [isFunction] or
    [isFunctionLikeExpression] holds, the two agreeing on function
    expressions alone; no such node is a class or has a supported body
    type, and no class has a supported body type. *)
Theorem function_tests_agree (n : node) :
  isFunctionType n = isFunction n || isFunctionLikeExpression n
  /\ isFunction n && isFunctionLikeExpression n = isType "FunctionExpression" n
  /\ (isFunctionType n = true -> isClass n = false /\ isSupportedBodyType n = false)
  /\ (isClass n = true -> isSupportedBodyType n = false).
Proof.
  unfold isFunctionType, isFunction, isFunctionLikeExpression, isClass,
    isSupportedBodyType, isType, functionTypeName, supportedBodyTypeName.
  generalize (nodeType n). intros t.
  split; [|split; [|split]].
  - destruct (t =? "FunctionDeclaration"), (t =? "FunctionExpression"),
      (t =? "ArrowFunctionExpression"); reflexivity.
  - destruct (String.eqb_spec t "FunctionExpression") as [->|N]; [reflexivity|].
    destruct (String.eqb_spec t "FunctionDeclaration") as [->|M]; reflexivity.
  - intros H. apply orb_prop in H. destruct H as [H|H];
      [apply orb_prop in H; destruct H as [H|H]|];
      apply String.eqb_eq in H; subst t; split; reflexivity.
  - intros H. apply orb_prop in H. destruct H as [H|H];
      apply String.eqb_eq in H; subst t; reflexivity.
Qed.

(** ** More on [findJSXReturnStatement] *)

(** The walk up the parents lets a node through exactly when the node is
    within the target. *)
Lemma walk_exact node bnode chain :
  (within node chain = true /\ JSXReturn.walk node bnode chain = Some (JSXReturn.RNode bnode))
  \/ (within node chain = false
      /\ (JSXReturn.walk node bnode chain = Some JSXReturn.RFalse
          \/ JSXReturn.walk node bnode chain = None)).
Proof.
  induction chain as [|id type chain IH]; simpl.
  - right. auto.
  - destruct (id =? node)%nat; rewrite ?andb_false_r, ?andb_true_r; simpl.
    + left. auto.
    + destruct (functionTypeName type); [right; auto|exact IH].
Qed.

(** A return statement, a yield or a function within the target is
    given back as it is. *)
Lemma loopNodes_accepts (node : nat) (bnode : Ast.node) :
  isType "ReturnStatement" bnode || isType "YieldExpression" bnode
  || isFunctionType bnode = true ->
  within node (refTo bnode) = true ->
  JSXReturn.loopNodes node bnode = JSXReturn.RNode bnode.
Proof.
  intros T W. apply loopNodes_boundary. unfold JSXReturn.boundary. rewrite T.
  destruct (walk_exact node bnode (refTo bnode)) as [[_ E]|[W' _]];
    [exact E|congruence].
Qed.

(** Handed a return statement, a yield or a function, [loopNodes] gives
    the node back when it is within the target and [false] when it is
    not: a node of another function is turned down, and so is one that
    hangs from no function at all. *)
Theorem loopNodes_boundary_exact (node : nat) (bnode : Ast.node) :
  isType "ReturnStatement" bnode || isType "YieldExpression" bnode
  || isFunctionType bnode = true ->
  JSXReturn.loopNodes node bnode
  = if within node (refTo bnode) then JSXReturn.RNode bnode else JSXReturn.RFalse.
Proof.
  intros T.
  assert (B : JSXReturn.boundary node bnode
              = JSXReturn.walk node bnode (refTo bnode)).
  { unfold JSXReturn.boundary. now rewrite T. }
  destruct (walk_exact node bnode (refTo bnode)) as [[W E]|[W [E|E]]]; rewrite W.
  - apply loopNodes_boundary. now rewrite B.
  - apply loopNodes_boundary. now rewrite B.
  - rewrite E in B.
    destruct bnode; try discriminate T; cbn [JSXReturn.loopNodes]; rewrite B;
      try reflexivity.
    destruct kind; discriminate T.
Qed.

Lemma boundary_none_if node id parent consequent alternate :
  JSXReturn.boundary node (IfStatement id parent consequent alternate) = None.
Proof. reflexivity. Qed.

Lemma boundary_none_loop node id parent kind body :
  JSXReturn.boundary node (LoopStatement id parent kind body) = None.
Proof. destruct kind; reflexivity. Qed.

(** An [if] and a loop stand for their unbraced branches: the nodes of
    the reduction of an [if] are those of its consequent followed by
    those of its alternate, those of a loop are those of its body, and a
    branch in braces adds nothing. So [if (x) return a; else return b;]
    within the target reduces to its two returns, in that order. *)
Theorem loopNodes_unbraced (node id : nat) (parent : parentRef) :
  (forall consequent alternate,
      nodesOf (JSXReturn.loopNodes node (IfStatement id parent consequent alternate))
      = unbraced node consequent
        ++ match alternate with
           | Some a => unbraced node a
           | None => []
           end)
  /\ (forall kind body,
         nodesOf (JSXReturn.loopNodes node (LoopStatement id parent kind body))
         = unbraced node body)
  /\ (forall cid cparent cargument aid aparent aargument,
         within node (refTo (ReturnStatement cid cparent cargument)) = true ->
         within node (refTo (ReturnStatement aid aparent aargument)) = true ->
         JSXReturn.loopNodes node
           (IfStatement id parent (ReturnStatement cid cparent cargument)
              (Some (ReturnStatement aid aparent aargument)))
         = JSXReturn.RArray [ReturnStatement cid cparent cargument;
                             ReturnStatement aid aparent aargument]).
Proof.
  split; [|split].
  - intros consequent alternate. cbn [JSXReturn.loopNodes].
    rewrite boundary_none_if. unfold unbraced.
    destruct alternate as [a|].
    + unfold nodesOf at 1. cbn [JSXReturn.splice].
      rewrite map_id_truthy, truthy_app.
      destruct (isType "BlockStatement" consequent), (isType "BlockStatement" a);
        reflexivity.
    + rewrite app_nil_r. destruct (isType "BlockStatement" consequent); reflexivity.
  - intros kind body. cbn [JSXReturn.loopNodes].
    rewrite boundary_none_loop. unfold unbraced.
    destruct (isType "BlockStatement" body); reflexivity.
  - intros cid cparent cargument aid aparent aargument Wc Wa.
    assert (Lc := loopNodes_accepts node
                    (ReturnStatement cid cparent cargument) eq_refl Wc).
    assert (La := loopNodes_accepts node
                    (ReturnStatement aid aparent aargument) eq_refl Wa).
    cbn [JSXReturn.loopNodes] in Lc, La |- *. rewrite boundary_none_if.
    change (isType "BlockStatement" (ReturnStatement cid cparent cargument)) with false.
    change (isType "BlockStatement" (ReturnStatement aid aparent aargument)) with false.
    cbn [negb]. now rewrite Lc, La.
Qed.

(** Handed a node that is no function, [findJSXReturnStatement] does not
    look at the scopes: a return statement or a yield is its own result,
    and any other node has the empty result. *)
Theorem findJSXReturnStatement_not_a_function (node : Ast.node)
    (scopes : list JSXReturn.scope) :
  isFunctionType node = false ->
  JSXReturn.findJSXReturnStatement node scopes
  = Ok (JSXReturn.Found
          (if isType "ReturnStatement" node || isType "YieldExpression" node
           then [Some node] else [])).
Proof.
  intros F. unfold JSXReturn.findJSXReturnStatement. rewrite F. simpl.
  destruct (isType "ReturnStatement" node || isType "YieldExpression" node) eqn:T;
    [|reflexivity].
  simpl. rewrite loopNodes_accepts; [reflexivity|now rewrite T|].
  unfold refTo. simpl. now rewrite Nat.eqb_refl.
Qed.

Lemma mapScopes_in scopes :
  forall cs s,
    JSXReturn.mapScopes scopes = Ok cs -> In s scopes ->
    exists c, JSXReturn.scopeNodes s = Ok c /\ In c cs.
Proof.
  induction scopes as [|s0 scopes IH]; intros cs s E I; [destruct I|].
  simpl in E.
  destruct (JSXReturn.scopeNodes s0) as [c0|] eqn:E0; simpl in E; [|discriminate E].
  destruct (JSXReturn.mapScopes scopes) as [cs0|]; simpl in E; [|discriminate E].
  injection E as <-.
  destruct I as [<-|I].
  - exists c0. split; [assumption|now left].
  - destruct (IH cs0 s eq_refl I) as (c & Ec & Ic). exists c. split; [assumption|now right].
Qed.

(** A return statement that stands in the body of the target, its parent
    the body and the body's parent the target, is in the result whenever
    the scopes hold the function scope of the target and the result is a
    list at all. *)
Theorem findJSXReturnStatement_own_returns
    (id : nat) (parent : parentRef) (kind : functionKind)
    (bid : nat) (statements : list Ast.node) (scopes : list JSXReturn.scope)
    (l : list JSXReturn.element) (rid : nat) (argument : option Ast.node) :
  let inTarget := Parent id (functionKindName kind) parent in
  let body := BlockStatement bid inTarget statements in
  let target := FunctionNode id parent kind body in
  let statement := ReturnStatement rid (refTo body) argument in
  In {| JSXReturn.scopeType := "function"; JSXReturn.block := target |} scopes ->
  In statement statements ->
  JSXReturn.findJSXReturnStatement target scopes = Ok (JSXReturn.Found l) ->
  In (Some statement) l.
Proof.
  intros inTarget body target statement Is Ir E.
  unfold JSXReturn.findJSXReturnStatement in E.
  assert (F : isFunctionType target = true) by (destruct kind; reflexivity).
  rewrite F in E. simpl valueOf in E. cbn iota in E.
  destruct (JSXReturn.mapScopes scopes) as [cs|] eqn:M; simpl in E; [|discriminate E].
  injection E as <-.
  destruct (mapScopes_in scopes cs _ M Is) as (c & Ec & Ic).
  assert (Q : JSXReturn.isReturnOrSupported statement = true) by reflexivity.
  assert (If : In statement (filter JSXReturn.isReturnOrSupported statements))
    by (apply filter_In; auto).
  assert (C : c = JSXReturn.CArray (filter JSXReturn.isReturnOrSupported statements)).
  { unfold JSXReturn.scopeNodes in Ec. simpl JSXReturn.scopeType in Ec.
    simpl JSXReturn.block in Ec. rewrite F in Ec. simpl in Ec.
    destruct (filter JSXReturn.isReturnOrSupported statements) as [|x fl] eqn:Fl;
      [destruct If|].
    destruct statements as [|y sl]; [destruct Ir|].
    simpl in Ec. now injection Ec as <-. }
  subst c.
  apply in_flat_map. exists (JSXReturn.loopNodes id statement). split.
  - apply in_map. apply in_flat_map.
    exists (JSXReturn.CArray (filter JSXReturn.isReturnOrSupported statements)).
    split; [|exact If].
    apply filter_In. split; [assumption|].
    simpl. destruct (filter JSXReturn.isReturnOrSupported statements);
      [destruct If|reflexivity].
  - assert (W : within id (refTo statement) = true).
    { unfold statement, body, inTarget, refTo. simpl.
      destruct (rid =? id)%nat; [reflexivity|].
      destruct (bid =? id)%nat; [reflexivity|].
      now rewrite Nat.eqb_refl. }
    rewrite (loopNodes_accepts id statement eq_refl W). now left.
Qed.

Lemma scopeNodes_on_body s :
  scopeOnBody s = true -> exists c, JSXReturn.scopeNodes s = Ok c.
Proof.
  unfold scopeOnBody. destruct s as [type block]. simpl.
  destruct ((type =? "function") || (type =? "block") || (type =? "for")) eqn:T.
  - intros B. clear T. unfold JSXReturn.scopeNodes. simpl.
    destruct (type =? "function"), (type =? "block"), (type =? "switch"),
      (type =? "for");
      destruct block; try discriminate B; try destruct kind; simpl;
      repeat (match goal with
              | |- context [match bodyOf ?x with _ => _ end] => destruct (bodyOf x)
              | |- context [if ?b then _ else _] => destruct b
              end; simpl);
      eauto.
  - intros _. apply orb_false_elim in T. destruct T as [T Tr].
    apply orb_false_elim in T. destruct T as [Tf Tb].
    unfold JSXReturn.scopeNodes. simpl. rewrite Tf, Tb, Tr. simpl.
    destruct (_ && _); eauto.
Qed.

(** With scopes as the scope manager makes them, every function, block
    and for scope on a node that has a body, [findJSXReturnStatement]
    does not throw: it answers a list. *)
Theorem findJSXReturnStatement_answers (node : Ast.node)
    (scopes : list JSXReturn.scope) :
  forallb scopeOnBody scopes = true ->
  exists l, JSXReturn.findJSXReturnStatement node scopes = Ok (JSXReturn.Found l).
Proof.
  intros W.
  assert (M : exists cs, JSXReturn.mapScopes scopes = Ok cs).
  { induction scopes as [|s scopes IH]; [simpl; eauto|].
    simpl in W. apply andb_prop in W. destruct W as [Ws W].
    destruct (scopeNodes_on_body s Ws) as (c & Ec).
    destruct (IH W) as (cs & Ecs). simpl. rewrite Ec, Ecs. simpl. eauto. }
  destruct M as (cs & Ecs).
  unfold JSXReturn.findJSXReturnStatement. rewrite Ecs.
  destruct (isFunctionType node); simpl; eauto.
Qed.

(** ** More on [findReturnStatement] *)

Lemma scan_found l res :
  TrailingReturn.scan l = Some res ->
  exists x, In x l /\ TrailingReturn.visit x = Some res.
Proof.
  induction l as [|x l IH]; simpl; [discriminate|].
  destruct (TrailingReturn.scan l) as [r|].
  - intros [= <-]. destruct (IH eq_refl) as (y & Iy & Vy). exists y. auto.
  - intros V. exists x. auto.
Qed.

Lemma loopNodes_found l r :
  TrailingReturn.loopNodes l = Ok (TrailingReturn.Located r) ->
  exists x, In x l /\ TrailingReturn.visit x = Some (Ok (TrailingReturn.Located r)).
Proof.
  unfold TrailingReturn.loopNodes.
  destruct (TrailingReturn.scan l) as [res|] eqn:E; [|discriminate].
  intros ->. now apply scan_found.
Qed.

Lemma visit_sound n :
  forall r,
    TrailingReturn.visit n = Some (Ok (TrailingReturn.Located r)) ->
    isReturnStatement r /\ In r (caseStatements n).
Proof.
  induction n using node_induction; intros r V; try discriminate V.
  - injection V as <-. split; [unfold isReturnStatement; eauto|now left].
  - destruct cases as [|c0 cases0] eqn:C; [discriminate V|].
    destruct (@exists_last _ (c0 :: cases0)) as (cs & c & E); [discriminate|].
    rewrite E in *. clear C E c0 cases0.
    rewrite visit_switch_last in V.
    destruct c as [l|]; [|discriminate V].
    injection V as V. apply loopNodes_found in V. destruct V as (x & Ix & Vx).
    apply Forall_app in H. destruct H as [_ H]. apply Forall_inv in H.
    simpl in H. rewrite Forall_forall in H.
    destruct (H x Ix r Vx) as [R I].
    split; [assumption|]. right.
    apply in_flat_map. exists (Some l). split.
    + apply in_or_app. right. now left.
    + apply in_flat_map. eauto.
Qed.

Lemma visit_complete n :
  casesComplete n = true ->
  TrailingReturn.visit n <> Some TypeError.
Proof.
  induction n using node_induction; intros W; try discriminate.
  destruct cases as [|c0 cases0] eqn:C; [discriminate|].
  destruct (@exists_last _ (c0 :: cases0)) as (cs & c & E); [discriminate|].
  rewrite E in *. clear C E c0 cases0.
  rewrite visit_switch_last.
  simpl in W. rewrite forallb_app in W. apply andb_prop in W.
  destruct W as [_ W]. simpl in W. rewrite andb_true_r in W.
  destruct c as [l|]; [|discriminate W].
  apply Forall_app in H. destruct H as [_ H]. apply Forall_inv in H. simpl in H.
  intros [= V]. unfold TrailingReturn.loopNodes in V.
  destruct (TrailingReturn.scan l) as [res|] eqn:S; [|discriminate V]. subst res.
  apply scan_found in S. destruct S as (x & Ix & Vx).
  rewrite Forall_forall in H. rewrite forallb_forall in W.
  exact (H x Ix (W x Ix) Vx).
Qed.

(** What [findReturnStatement] finds is a return statement, whatever
    the node it is handed; in a function with a block body it is one of
    the statements of the body or of the cases of its switches; and the
    scan throws only where a switch has a case without a [consequent]. *)
Theorem findReturnStatement_sound :
  (forall node r,
      TrailingReturn.findReturnStatement node = Ok (TrailingReturn.Located r) ->
      isReturnStatement r)
  /\ (forall id parent kind bid bparent statements r,
         TrailingReturn.findReturnStatement
           (FunctionNode id parent kind (BlockStatement bid bparent statements))
         = Ok (TrailingReturn.Located r) ->
         In r (flat_map caseStatements statements))
  /\ (forall id parent kind bid bparent statements,
         forallb casesComplete statements = true ->
         TrailingReturn.findReturnStatement
           (FunctionNode id parent kind (BlockStatement bid bparent statements))
         <> TypeError).
Proof.
  assert (L : forall statements r,
             TrailingReturn.loopNodes statements = Ok (TrailingReturn.Located r) ->
             isReturnStatement r /\ In r (flat_map caseStatements statements)).
  { intros statements r E. apply loopNodes_found in E. destruct E as (x & Ix & Vx).
    destruct (visit_sound x r Vx) as [R I]. split; [assumption|].
    apply in_flat_map. eauto. }
  split; [|split].
  - intros node r E. unfold TrailingReturn.findReturnStatement in E.
    destruct (_ && _); [discriminate E|].
    destruct (match valueOf node with
              | Some v => fieldBody (bodyOf v)
              | None => fieldBody (bodyOf node)
              end) as [[|n|l]|]; simpl in E; try discriminate E.
    now apply L in E.
  - intros id parent kind bid bparent statements r E.
    change (TrailingReturn.loopNodes statements = Ok (TrailingReturn.Located r)) in E.
    now apply L in E.
  - intros id parent kind bid bparent statements W.
    change (TrailingReturn.loopNodes statements <> TypeError).
    unfold TrailingReturn.loopNodes.
    destruct (TrailingReturn.scan statements) as [res|] eqn:S; [|discriminate].
    apply scan_found in S. destruct S as (x & Ix & Vx).
    intros ->. rewrite forallb_forall in W.
    exact (visit_complete x (W x Ix) Vx).
Qed.

(** A node that holds a function as its [value] and has no body of its
    own, as a method definition does, is searched as that function
    is. *)
Theorem findReturnStatement_through_value
    (id : nat) (parent : parentRef) (type : string) (value : Ast.node) :
  valueOf value = None ->
  TrailingReturn.findReturnStatement (OtherNode id parent type (Some value) None)
  = TrailingReturn.findReturnStatement value.
Proof.
  intros V. unfold TrailingReturn.findReturnStatement. simpl valueOf. rewrite V.
  change (TrailingReturn.lacksBody (OtherNode id parent type (Some value) None))
    with true.
  rewrite andb_true_r. reflexivity.
Qed.

(** ** [getFirstNodeInLine] and [isNodeFirstInLine] *)

Import Tokens.




(** ** [checkNode] *)

Lemma checkNode_total o src find isWrapper :
  forall e, exists rs, CheckNode.checkNode o src find isWrapper e = Ok rs.
Proof.
  fix IH 1.
  intros [properties|name|calleeName [|inner others]|type]; cbn [CheckNode.checkNode].
  - apply checkSorted_total.
  - destruct (find name) as [[properties|]|].
    + apply checkSorted_total.
    + exists []. reflexivity.
    + exists []. reflexivity.
  - exists []. reflexivity.
  - destruct (isWrapper calleeName); [apply IH|exists []; reflexivity].
  - exists []. reflexivity.
Qed.

(** [checkNode] looks through calls of prop wrapper functions, however
    many are nested, to their first argument, and checks that as if it
    stood alone; a call of any other function is not looked into; and
    [checkNode] never throws. *)
Theorem checkNode_wrappers (o : configuration) (src : string)
    (find : string -> option (option (list declaration)))
    (isWrapper : option string -> bool) :
  (forall calls e,
      Forall (fun call => isWrapper (fst call) = true) calls ->
      CheckNode.checkNode o src find isWrapper (CheckNode.wrapped calls e)
      = CheckNode.checkNode o src find isWrapper e)
  /\ (forall calleeName arguments,
         isWrapper calleeName = false ->
         CheckNode.checkNode o src find isWrapper
           (CheckNode.CallExpression calleeName arguments) = Ok [])
  /\ (forall e, exists rs, CheckNode.checkNode o src find isWrapper e = Ok rs).
Proof.
  split; [|split].
  - intros calls e. induction 1 as [|[calleeName others] calls W _ IH]; [reflexivity|].
    simpl in W |- *. now rewrite W.
  - intros calleeName [|inner others] W; simpl; [reflexivity|now rewrite W].
  - apply checkNode_total.
Qed.

(** ** Instances *)




Lemma checkSorted_required_first_witness :
  exists rs,
    checkSorted
      {| requiredFirst := true; callbacksLast := false; ignoreCase := false;
         noSortAlphabetically := false; sortShapeProp := false |} ""
      (Some [SortExamples.a_required; SortExamples.b_optional]) = Ok rs
    /\ (filter SortReduction.isRequiredReport rs = []
        <-> exists required others,
              [SortExamples.a_required; SortExamples.b_optional] = required ++ others
              /\ Forall (fun d => isRequiredProp d = true) required
              /\ Forall (fun d => isRequiredProp d = false) others).
Proof.
  apply (checkSorted_required_first
           {| requiredFirst := true; callbacksLast := false; ignoreCase := false;
              noSortAlphabetically := false; sortShapeProp := false |} ""
           [SortExamples.a_required; SortExamples.b_optional] eq_refl).
  repeat constructor.
Defined.

Lemma checkSorted_layers_off_witness :
  checkSorted
    {| requiredFirst := false; callbacksLast := false; ignoreCase := false;
       noSortAlphabetically := true; sortShapeProp := false |} ""
    (Some [SortExamples.b; SortExamples.a]) = Ok [].
Proof.
  apply (checkSorted_layers_off
           {| requiredFirst := false; callbacksLast := false; ignoreCase := false;
              noSortAlphabetically := true; sortShapeProp := false |} ""
           (Some [SortExamples.b; SortExamples.a])); reflexivity.
Defined.

Lemma checkSorted_ignoreCase_unused_witness :
  checkSorted
    (withIgnoreCase true
       {| requiredFirst := false; callbacksLast := true; ignoreCase := false;
          noSortAlphabetically := true; sortShapeProp := false |}) ""
    (Some [SortExamples.onClick; SortExamples.value])
  = checkSorted
      {| requiredFirst := false; callbacksLast := true; ignoreCase := false;
         noSortAlphabetically := true; sortShapeProp := false |} ""
      (Some [SortExamples.onClick; SortExamples.value]).
Proof.
  apply (checkSorted_ignoreCase_unused
           {| requiredFirst := false; callbacksLast := true; ignoreCase := false;
              noSortAlphabetically := true; sortShapeProp := false |} "" true).
  reflexivity.
Defined.

Lemma getKeyValue_tokens_witness :
  KeyValue.getKeyValue (KeyValue.ObjectTypeProperty ["name"; ":"]) = Ok (Some "name").
Proof.
  apply (proj1 (proj2 getKeyValue_tokens) "name" [":"]).
  - discriminate.
  - discriminate.
  - discriminate.
  - intros [|c1 [|c2 [|c3 [|c4 [|c5 u]]]]]; discriminate.
Defined.

Lemma loopNodes_boundary_exact_witness :
  JSXReturn.loopNodes (nodeId AstExamples.Generator.f) AstExamples.Generator.yieldOne
  = if within (nodeId AstExamples.Generator.f) (refTo AstExamples.Generator.yieldOne)
    then JSXReturn.RNode AstExamples.Generator.yieldOne
    else JSXReturn.RFalse.
Proof.
  apply (loopNodes_boundary_exact (nodeId AstExamples.Generator.f)
           AstExamples.Generator.yieldOne).
  reflexivity.
Defined.

Lemma loopNodes_within_or_expression_witness :
  within (nodeId AstExamples.Generator.f) (refTo AstExamples.Generator.yieldOne) = true
  \/ In AstExamples.Generator.yieldOne
       (statementExpressions AstExamples.Generator.statement).
Proof.
  apply (loopNodes_within_or_expression (nodeId AstExamples.Generator.f)
           AstExamples.Generator.statement AstExamples.Generator.yieldOne).
  simpl. left. reflexivity.
Defined.

Lemma findJSXReturnStatement_not_a_function_witness :
  JSXReturn.findJSXReturnStatement AstExamples.Switch.returnZero
    AstExamples.Generator.scopes
  = Ok (JSXReturn.Found
          (if isType "ReturnStatement" AstExamples.Switch.returnZero
              || isType "YieldExpression" AstExamples.Switch.returnZero
           then [Some AstExamples.Switch.returnZero] else [])).
Proof.
  apply (findJSXReturnStatement_not_a_function AstExamples.Switch.returnZero
           AstExamples.Generator.scopes).
  reflexivity.
Defined.

Lemma findJSXReturnStatement_own_returns_witness :
  In (Some AstExamples.Switch.returnZero) [Some AstExamples.Switch.returnZero].
Proof.
  apply (findJSXReturnStatement_own_returns 1 AstExamples.inProgram
           FunctionDeclaration 2
           [AstExamples.Switch.returnZero; AstExamples.Switch.switch]
           [AstExamples.scopeOf "global" AstExamples.program;
            AstExamples.scopeOf "function" AstExamples.Switch.f]
           [Some AstExamples.Switch.returnZero] 3 None).
  - right. left. reflexivity.
  - left. reflexivity.
  - reflexivity.
Defined.

Lemma findJSXReturnStatement_answers_witness :
  exists l,
    JSXReturn.findJSXReturnStatement AstExamples.Generator.f
      AstExamples.Generator.scopes = Ok (JSXReturn.Found l).
Proof.
  apply (findJSXReturnStatement_answers AstExamples.Generator.f
           AstExamples.Generator.scopes).
  reflexivity.
Defined.

Lemma findReturnStatement_sound_witness :
  isReturnStatement (ReturnStatement 11 AstExamples.Switch.inBody None).
Proof.
  apply (proj1 findReturnStatement_sound
           (FunctionNode 1 AstExamples.inProgram FunctionDeclaration
              (BlockStatement 2 AstExamples.Switch.inF
                 [ReturnStatement 11 AstExamples.Switch.inBody None]))).
  reflexivity.
Defined.

Lemma findReturnStatement_through_value_witness :
  TrailingReturn.findReturnStatement
    (OtherNode 20 NoParent "MethodDefinition" (Some AstExamples.Switch.f) None)
  = TrailingReturn.findReturnStatement AstExamples.Switch.f.
Proof.
  apply (findReturnStatement_through_value 20 NoParent "MethodDefinition"
           AstExamples.Switch.f).
  reflexivity.
Defined.

Lemma checkNode_wrappers_witness :
  CheckNode.checkNode SortExamples.defaults "" (fun _ => None)
    (fun name => match name with Some "forbidExtraProps" => true | _ => false end)
    (CheckNode.wrapped [(Some "forbidExtraProps", []); (Some "forbidExtraProps", [])]
       (CheckNode.ObjectExpression [SortExamples.b; SortExamples.a]))
  = CheckNode.checkNode SortExamples.defaults "" (fun _ => None)
      (fun name => match name with Some "forbidExtraProps" => true | _ => false end)
      (CheckNode.ObjectExpression [SortExamples.b; SortExamples.a]).
Proof.
  apply (proj1 (checkNode_wrappers SortExamples.defaults "" (fun _ => None)
                  (fun name =>
                     match name with Some "forbidExtraProps" => true | _ => false end))).
  repeat constructor.
Defined.
